(** * hd-wallet: synchronization client and impact derivation

    A shallow embedding of the two source files of the wallet core:
    the transaction-history engine ([deriveImpacts], [analyzeTransaction],
    [compareByOldestAndType]) and the bitcore backend client
    ([BitcoreBlockchain], the wire adapters, the address adapter and the
    paged history lookup), followed by the properties proved about them.

    JavaScript numbers that hold satoshi amounts, heights, counters and
    indexes are integers in the code's intended range and are modelled
    by [Z]; the two places where the code relies on non-integer values
    of the number type ([Infinity] and [NaN] in the comparator) are
    modelled by an explicit extended-number type. *)

From Stdlib Require Import ZArith List String Ascii Lia Bool Sorted.
From stdpp Require Import gmap strings list.

Local Open Scope Z_scope.

(* ===================================================================== *)
(** ** JavaScript values used by the sources *)
(* ===================================================================== *)

Module JS.

(** The part of the JS number type the comparator can produce:
    finite integers, the two infinities and NaN. *)
Inductive number :=
| Fin (z : Z)
| PosInf
| NegInf
| NaN.

(** [a - b] on extended numbers ([Infinity - Infinity] is NaN). *)
Definition sub (a b : number) : number :=
  match a, b with
  | NaN, _ | _, NaN => NaN
  | Fin x, Fin y => Fin (x - y)
  | Fin _, PosInf => NegInf
  | Fin _, NegInf => PosInf
  | PosInf, PosInf => NaN
  | PosInf, _ => PosInf
  | NegInf, NegInf => NaN
  | NegInf, _ => NegInf
  end.

(** ToBoolean on numbers: [0] and [NaN] are falsy. *)
Definition truthy (a : number) : bool :=
  match a with
  | Fin 0 => false
  | NaN => false
  | _ => true
  end.

(** [a || b]. *)
Definition or (a b : number) : number := if truthy a then a else b.

(** [a < 0], the test a sort applies to the comparator's result. *)
Definition negative (a : number) : bool :=
  match a with
  | Fin z => z <? 0
  | NegInf => true
  | _ => false
  end.

(** ToBoolean on an optional string: [undefined], [null] and the
    empty string are falsy. *)
Definition truthy_string (s : option string) : bool :=
  match s with
  | Some EmptyString => false
  | Some _ => true
  | None => false
  end.

(** [x >>> 0] on an integer: ToUint32. *)
Definition to_uint32 (z : Z) : Z := z mod 2 ^ 32.

(** [Array.prototype.indexOf] with strict equality, [-1] when absent. *)
Fixpoint indexOf_from {A} `{EqDecision A} (x : A) (l : list A) (k : Z) : Z :=
  match l with
  | [] => -1
  | y :: l' => if decide (y = x) then k else indexOf_from x l' (k + 1)
  end.

Definition indexOf {A} `{EqDecision A} (l : list A) (x : A) : Z :=
  indexOf_from x l 0.

(** [Array.prototype.sort(comparefn)] for a consistent comparator:
    a stable sort; [x] is placed before [y] unless
    [comparefn(y, x) < 0]. *)
Fixpoint sort_insert {A} (cmp : A -> A -> number) (x : A) (l : list A)
  : list A :=
  match l with
  | [] => [x]
  | y :: l' =>
      if negative (cmp y x) then y :: sort_insert cmp x l'
      else x :: y :: l'
  end.

Fixpoint sort {A} (cmp : A -> A -> number) (l : list A) : list A :=
  match l with
  | [] => []
  | x :: l' => sort_insert cmp x (sort cmp l')
  end.

(** [before cmp x y]: the comparator puts [x] strictly before [y];
    [notAfter cmp x y]: it does not put [y] strictly before [x]. *)
Definition before {A} (cmp : A -> A -> number) (x y : A) : Prop :=
  negative (cmp x y) = true.

Definition notAfter {A} (cmp : A -> A -> number) (x y : A) : Prop :=
  ~ before cmp y x.

End JS.

(* ===================================================================== *)
(** ** Canonical data model *)
(* ===================================================================== *)

(** Byte buffers: a byte is an integer in [0, 256). *)
Definition Buffer := list Z.

Record Input := mkInput {
  in_script : Buffer;
  in_hash : Buffer;
  in_index : Z;
  in_sequence : Z
}.

(** An output; [out_address] is the address field the history engine
    reads ([o.address]), absent on outputs fresh from the wire
    adapters. *)
Record Output := mkOutput {
  out_script : Buffer;
  out_value : Z;
  out_address : option string
}.

Record Transaction := mkTransaction {
  tx_version : Z;
  tx_locktime : Z;
  tx_ins : list Input;
  tx_outs : list Output
}.

Record TransactionInfo := mkTransactionInfo {
  ti_tx : Transaction;
  ti_id : string;
  ti_height : option Z;
  ti_timestamp : option Z;
  ti_inputIds : list string
}.

(* ===================================================================== *)
(** ** Transaction history engine *)
(* ===================================================================== *)

Module History.

(** Modelled from the spec: the [Chain] collaborator of the discovery
    module, which is not part of the two source files.  A chain is an
    ordered set of derived addresses and offers one capability, "does
    this chain contain address X". *)
Definition Chain := list string.

(** Modelled from the spec: [chainContainsAddress] of the discovery
    module, the chain's one capability: whether the chain contains
    the address. *)
Definition chainContainsAddress (c : Chain) (a : string) : bool :=
  bool_decide (a ∈ c).

(** Modelled from the spec: the [TransactionMap] of the transaction
    module, which is not part of the two source files: the full set
    of materialized transactions, mapped over in order and queried
    for the output [index] of the transaction with a given id.  A
    missing id (or an id that is itself [undefined]) and an index out
    of range resolve to nothing. *)
Definition TransactionMap := list TransactionInfo.

(** Modelled from the spec: the lookup of a transaction of the set by
    its id. *)
Definition TransactionMap_get (m : TransactionMap) (id : string)
  : option TransactionInfo :=
  List.find (fun t => bool_decide (ti_id t = id)) m.

(** Modelled from the spec: [TransactionMap.getOutput(id, index)],
    the output an input refers to, resolved through the full
    transaction set. *)
Definition getOutput (m : TransactionMap) (id : option string) (index : Z)
  : option Output :=
  match id with
  | None => None
  | Some id =>
      match TransactionMap_get m id with
      | None => None
      | Some t =>
          if index <? 0 then None
          else tx_outs (ti_tx t) !! Z.to_nat index
      end
  end.

Inductive TransactionImpactType := incoming | outgoing | internal.

#[export] Instance TransactionImpactType_eq_dec :
  EqDecision TransactionImpactType.
Proof. solve_decision. Defined.

Record TransactionImpact := mkImpact {
  id : string;
  height : option Z;
  timestamp : option Z;
  type : TransactionImpactType;
  value : Z;
  balance : Z;
  targets : list Output
}.

Definition IMPACT_ORDERING : list TransactionImpactType :=
  [incoming; internal; outgoing].

Definition compareByOldestAndType (a b : TransactionImpact) : JS.number :=
  let ah := match height a with Some h => JS.Fin h | None => JS.PosInf end in
  let bh := match height b with Some h => JS.Fin h | None => JS.PosInf end in
  JS.or (JS.or (JS.sub ah bh) (JS.Fin 0))
        (JS.Fin (JS.indexOf IMPACT_ORDERING (type a) -
                 JS.indexOf IMPACT_ORDERING (type b))).

Section Analyze.
Variables (transactions : TransactionMap) (external internal_ : Chain).

Definition isExternal (o : Output) : bool :=
  JS.truthy_string (out_address o) &&
  match out_address o with
  | Some a => chainContainsAddress external a
  | None => false
  end.

Definition isInternal (o : Output) : bool :=
  JS.truthy_string (out_address o) &&
  match out_address o with
  | Some a => chainContainsAddress internal_ a
  | None => false
  end.

Definition isCredit (o : Output) : bool := isExternal o || isInternal o.
Definition isDebit (o : Output) : bool := negb (isCredit o).

(** The mutable locals [value], [nDebit], [nCredit] of
    [analyzeTransaction], threaded through the two [forEach]
    loops. *)
Record Counters := mkCounters {
  c_value : Z;
  c_nDebit : Z;
  c_nCredit : Z
}.

(** Body of the loop over [tx.ins]; [index] is the position of the
    input. *)
Definition debitStep (inputIds : list string) (c : Counters)
           (p : nat * Input) : Counters :=
  let '(index, i) := p in
  match getOutput transactions (inputIds !! index) (in_index i) with
  | Some o =>
      if isCredit o
      then mkCounters (c_value c - out_value o) (c_nDebit c + 1)
                      (c_nCredit c)
      else c
  | None => c
  end.

(** Body of the loop over [tx.outs]. *)
Definition creditStep (c : Counters) (o : Output) : Counters :=
  if isCredit o
  then mkCounters (c_value c + out_value o) (c_nDebit c)
                  (c_nCredit c + 1)
  else c.

Definition indexed {A} (l : list A) : list (nat * A) :=
  combine (seq 0 (length l)) l.

Definition analyzeTransaction (info : TransactionInfo)
  : TransactionImpact :=
  let tx := ti_tx info in
  let c0 := mkCounters 0 0 0 in
  let c1 := fold_left (debitStep (ti_inputIds info))
                      (indexed (tx_ins tx)) c0 in
  let c2 := fold_left creditStep (tx_outs tx) c1 in
  let nDebit := c_nDebit c2 in
  let nCredit := c_nCredit c2 in
  let value := c_value c2 in
  let '(type, targets) :=
    if (nDebit =? Z.of_nat (length (tx_ins tx))) &&
       (nCredit =? Z.of_nat (length (tx_outs tx)))
    then (internal, [])
    else if 0 <? value
    then
      let targets := List.filter isExternal (tx_outs tx) in
      (incoming,
       if Z.of_nat (length targets) =? 0
       then List.filter isInternal (tx_outs tx)
       else targets)
    else (outgoing, List.filter isDebit (tx_outs tx)) in
  let balance := 0 in
  mkImpact (ti_id info) (ti_height info) (ti_timestamp info)
           type value balance targets.

End Analyze.

Definition set_balance (info : TransactionImpact) (b : Z)
  : TransactionImpact :=
  mkImpact (id info) (height info) (timestamp info) (type info)
           (value info) b (targets info).

(** The [reduce] of [deriveImpacts]: walks the array left to right,
    assigning [info.balance] from the previous (already updated)
    element.  Every element is a fresh object built by
    [analyzeTransaction], so the in-place assignment touches one
    element only. *)
Fixpoint reduceBalance (prev : option TransactionImpact)
         (impacts : list TransactionImpact) : list TransactionImpact :=
  match impacts with
  | [] => []
  | info :: rest =>
      let info' :=
        match prev with
        | Some p => set_balance info (balance p + value info)
        | None => set_balance info (value info)
        end in
      info' :: reduceBalance (Some info') rest
  end.

Definition deriveImpacts (transactions : TransactionMap)
           (external internal_ : Chain) : list TransactionImpact :=
  let impacts :=
    List.map (fun info =>
                analyzeTransaction transactions external internal_ info)
             transactions in
  let impacts := JS.sort compareByOldestAndType impacts in
  let impacts := reduceBalance None impacts in
  rev impacts.

End History.


(* ===================================================================== *)
(** ** Library collaborators: buffers, SHA-256, Base58Check *)
(* ===================================================================== *)

(** The sources call into Node's [Buffer] and into bitcoinjs-lib
    ([address.toBase58Check], [networks]).  They are modelled by their
    published definitions: hexadecimal decoding, FIPS 180-4 SHA-256 and
    the Base58Check encoding of a version byte followed by a hash. *)
Module Codec.

Definition hexDigit (c : ascii) : option Z :=
  let n := Z.of_nat (nat_of_ascii c) in
  if (48 <=? n) && (n <=? 57) then Some (n - 48)
  else if (97 <=? n) && (n <=? 102) then Some (n - 87)
  else if (65 <=? n) && (n <=? 70) then Some (n - 55)
  else None.

(** [new Buffer(s, 'hex')]: one byte per pair of hexadecimal digits;
    decoding stops at the first pair that is not hexadecimal. *)
Fixpoint Buffer_from_hex (s : string) : Buffer :=
  match s with
  | String c1 (String c2 rest) =>
      match hexDigit c1, hexDigit c2 with
      | Some h, Some l => (16 * h + l) :: Buffer_from_hex rest
      | _, _ => []
      end
  | _ => []
  end.

Definition hexChar (n : Z) : ascii :=
  ascii_of_nat (Z.to_nat (if n <? 10 then 48 + n else 87 + n)).

(** [buffer.toString('hex')]. *)
Fixpoint Buffer_to_hex (b : Buffer) : string :=
  match b with
  | [] => EmptyString
  | x :: b' => String (hexChar (x / 16)) (String (hexChar (x mod 16))
                                                  (Buffer_to_hex b'))
  end.

(** *** SHA-256 on 32-bit words *)

Definition w32 (x : Z) : Z := x mod 2 ^ 32.
Definition add32 (x y : Z) : Z := w32 (x + y).
Definition rotr (n x : Z) : Z :=
  Z.lor (Z.shiftr x n) (w32 (Z.shiftl x (32 - n))).
Definition not32 (x : Z) : Z := Z.lxor x 0xffffffff.

Definition Ch (x y z : Z) : Z :=
  Z.lxor (Z.land x y) (Z.land (not32 x) z).
Definition Maj (x y z : Z) : Z :=
  Z.lxor (Z.lxor (Z.land x y) (Z.land x z)) (Z.land y z).
Definition Sigma0 (x : Z) : Z :=
  Z.lxor (Z.lxor (rotr 2 x) (rotr 13 x)) (rotr 22 x).
Definition Sigma1 (x : Z) : Z :=
  Z.lxor (Z.lxor (rotr 6 x) (rotr 11 x)) (rotr 25 x).
Definition sigma0 (x : Z) : Z :=
  Z.lxor (Z.lxor (rotr 7 x) (rotr 18 x)) (Z.shiftr x 3).
Definition sigma1 (x : Z) : Z :=
  Z.lxor (Z.lxor (rotr 17 x) (rotr 19 x)) (Z.shiftr x 10).

(** The constants of SHA-256 by their definition: the first 32 bits of
    the fractional parts of the cube roots (round constants) and of
    the square roots (initial hash value) of the first primes. *)
Fixpoint primesFrom (fuel : nat) (n : Z) (count : nat) (found : list Z)
  : list Z :=
  match fuel, count with
  | _, O => rev found
  | O, _ => rev found
  | S fuel', S count' =>
      if forallb (fun p => negb (n mod p =? 0)) found
      then primesFrom fuel' (n + 1) count' (n :: found)
      else primesFrom fuel' (n + 1) count found
  end.

Definition primes (count : nat) : list Z := primesFrom 400 2 count [].

(** The largest [r] below [2 ^ bits] (added to [r0]) whose cube is at
    most [n]. *)
Fixpoint cubeRoot (bits : nat) (n r : Z) : Z :=
  match bits with
  | O => r
  | S bits' =>
      let r' := r + 2 ^ Z.of_nat bits' in
      cubeRoot bits' n (if r' * r' * r' <=? n then r' else r)
  end.

Definition K256 : list Z :=
  Eval vm_compute in
    List.map (fun p => w32 (cubeRoot 36 (p * 2 ^ 96) 0)) (primes 64).

Definition H256 : list Z :=
  Eval vm_compute in
    List.map (fun p => w32 (Z.sqrt (p * 2 ^ 64))) (primes 8).

(** Big-endian bytes of the low [n] bytes of [x], and back. *)
Fixpoint be_bytes (n : nat) (x : Z) : list Z :=
  match n with
  | O => []
  | S n' => ((x / 256 ^ Z.of_nat n') mod 256) :: be_bytes n' x
  end.

Definition be_value (b : list Z) : Z :=
  fold_left (fun acc x => 256 * acc + x) b 0.

(** Message padding: a [0x80] byte, zeros up to 56 modulo 64, then the
    bit length on 8 bytes. *)
Definition pad (msg : list Z) : list Z :=
  let len := Z.of_nat (length msg) in
  let zeros := Z.to_nat ((55 - len) mod 64) in
  msg ++ [0x80] ++ repeat 0 zeros ++ be_bytes 8 (8 * len).

Fixpoint words (n : nat) (b : list Z) : list Z :=
  match n with
  | O => []
  | S n' => be_value (firstn 4 b) :: words n' (skipn 4 b)
  end.

(** The message schedule, most recent word first: [rw] holds
    W[t-1], W[t-2], ... *)
Fixpoint schedule (n : nat) (rw : list Z) : list Z :=
  match n with
  | O => rw
  | S n' =>
      let w := add32 (add32 (sigma1 (nth 1 rw 0)) (nth 6 rw 0))
                     (add32 (sigma0 (nth 14 rw 0)) (nth 15 rw 0)) in
      schedule n' (w :: rw)
  end.

Definition round (st : list Z) (kw : Z * Z) : list Z :=
  match st with
  | [a; b; c; d; e; f; g; h] =>
      let t1 := add32 (add32 (add32 h (Sigma1 e)) (Ch e f g))
                      (add32 (fst kw) (snd kw)) in
      let t2 := add32 (Sigma0 a) (Maj a b c) in
      [add32 t1 t2; a; b; c; add32 d t1; e; f; g]
  | _ => st
  end.

Definition compress (st : list Z) (block : list Z) : list Z :=
  let w := rev (schedule 48 (rev (words 16 block))) in
  let st' := fold_left round (combine K256 w) st in
  zip_with add32 st st'.

Fixpoint blocks (n : nat) (st : list Z) (b : list Z) : list Z :=
  match n with
  | O => st
  | S n' => blocks n' (compress st (firstn 64 b)) (skipn 64 b)
  end.

Definition sha256 (msg : list Z) : list Z :=
  let p := pad msg in
  flat_map (be_bytes 4) (blocks (length p / 64)%nat H256 p).

(** *** Base58 and Base58Check *)

Definition ALPHABET : string :=
  "123456789ABCDEFGHJKLMNPQRSTUVWXYZabcdefghijkmnopqrstuvwxyz".

Definition base58Char (d : Z) : ascii :=
  match String.get (Z.to_nat d) ALPHABET with
  | Some c => c
  | None => "1"%char
  end.

(** Digits of [n] in base 58, most significant first. *)
Fixpoint base58Digits (fuel : nat) (n : Z) (acc : string) : string :=
  match fuel with
  | O => acc
  | S fuel' =>
      if n <=? 0 then acc
      else base58Digits fuel' (n / 58) (String (base58Char (n mod 58)) acc)
  end.

Fixpoint leadingZeros (b : list Z) : string :=
  match b with
  | 0 :: b' => String "1" (leadingZeros b')
  | _ => EmptyString
  end.

Definition base58 (b : list Z) : string :=
  String.append (leadingZeros b)
                (base58Digits (2 * length b) (be_value b) EmptyString).

Definition base58check (payload : list Z) : string :=
  base58 (payload ++ firstn 4 (sha256 (sha256 payload))).

(** [address.toBase58Check(hash, version)]: the library first checks
    its arguments, a hash of exactly 20 bytes and a version that is
    one byte, and throws when the check fails ([None]); otherwise the
    result is the version byte followed by the hash, Base58Check
    encoded. *)
Definition toBase58Check (hash : Buffer) (version : Z) : option string :=
  if (length hash =? 20)%nat && (0 <=? version) && (version <=? 255)
  then Some (base58check (version :: hash))
  else None.

Record Network := mkNetwork {
  pubKeyHash : Z;
  scriptHash : Z
}.

(** [networks.bitcoin] and [networks.testnet]: the address version
    bytes of the two networks. *)
Definition bitcoin : Network := mkNetwork 0x00 0x05.
Definition testnet : Network := mkNetwork 0x6f 0xc4.

End Codec.

(* ===================================================================== *)
(** ** The bitcore backend client *)
(* ===================================================================== *)

Module Bitcore.

(** *** Wire formats *)

Record BcInput := mkBcInput {
  bi_script : string;
  bi_prevTxId : string;
  bi_outputIndex : Z;
  bi_sequenceNumber : Z
}.

Record BcOutput := mkBcOutput {
  bo_script : string;
  bo_satoshis : Z
}.

Record BcTransaction := mkBcTransaction {
  bc_hash : string;
  bc_version : Z;
  bc_nLockTime : Z;
  bc_inputs : list BcInput;
  bc_outputs : list BcOutput
}.

Record BcTransactionInfo := mkBcTransactionInfo {
  bci_tx : BcTransaction;
  bci_height : Z;
  bci_timestamp : option Z
}.

(** [BcHistory]: a [BcTransactionInfo] with an [addresses] object, of
    which only the keys are read. *)
Record BcHistory := mkBcHistory {
  bh_addresses : list string;
  bh_info : BcTransactionInfo
}.

Record BcHistories := mkBcHistories {
  items : list BcHistory;
  totalCount : Z
}.

Record BcParsedAddress := mkBcParsedAddress {
  pa_hash : string;
  pa_network : string;
  pa_type : string
}.

Record BcNotification := mkBcNotification {
  bn_address : BcParsedAddress;
  bn_rejected : bool;
  bn_tx : BcTransaction;
  bn_height : option Z;
  bn_timestamp : option Z
}.

Record InsightInput := mkInsightInput {
  ii_txid : string;
  ii_vout : Z;
  ii_scriptSig_hex : string;
  ii_sequence : Z
}.

Record InsightOutput := mkInsightOutput {
  io_value : string;
  io_scriptPubKey_hex : string
}.

Record InsightTransactionInfo := mkInsightTransactionInfo {
  it_txid : string;
  it_version : Z;
  it_locktime : Z;
  it_vin : list InsightInput;
  it_vout : list InsightOutput;
  it_blockheight : Z;
  it_time : Z
}.

Record TransactionMatch := mkTransactionMatch {
  info : TransactionInfo;
  addresses : list string;
  rejected : bool
}.

(** *** Thrown errors *)

(** [TypeError] is the error the two switch statements throw;
    [ArgumentError] stands for the error [address.toBase58Check]
    throws when its argument check fails, of which only the occurrence
    is modelled, with the arguments that caused it. *)
Inductive Error :=
| TypeError (message : string)
| ArgumentError (hash : Buffer) (version : Z).

Inductive Result (A : Type) :=
| Return (a : A)
| Throw (e : Error).

Arguments Return {A} a.
Arguments Throw {A} e.

(** *** Wire adapters *)

Definition EMPTY_BUFFER : Buffer := [].

Definition bitcoreToTransaction (r : BcTransaction) (neutered : bool)
  : Transaction :=
  mkTransaction
    (bc_version r)
    (bc_nLockTime r)
    (List.map
       (fun ir =>
          let script :=
            if neutered then EMPTY_BUFFER
            else Codec.Buffer_from_hex (bi_script ir) in
          let hash := rev (Codec.Buffer_from_hex (bi_prevTxId ir)) in
          mkInput script hash
                  (JS.to_uint32 (bi_outputIndex ir))
                  (JS.to_uint32 (bi_sequenceNumber ir)))
       (bc_inputs r))
    (List.map
       (fun or =>
          mkOutput (Codec.Buffer_from_hex (bo_script or))
                   (bo_satoshis or) None)
       (bc_outputs r)).

Definition bitcoreToNetwork (s : string) : Result Codec.Network :=
  if decide (s = "livenet"%string) then Return Codec.bitcoin
  else if decide (s = "testnet"%string) then Return Codec.testnet
  else Throw (TypeError ("Unknown bitcore network '" +:+ s +:+ "'")).

Definition bitcoreToAddressVersion (n : Codec.Network) (s : string)
  : Result Z :=
  if decide (s = "pubkeyhash"%string) then Return (Codec.pubKeyHash n)
  else if decide (s = "scripthash"%string) then Return (Codec.scriptHash n)
  else Throw (TypeError ("Unknown bitcore address version '" +:+ s +:+ "'")).

Definition bitcoreToAddress (r : BcParsedAddress) : Result string :=
  match bitcoreToNetwork (pa_network r) with
  | Throw e => Throw e
  | Return n =>
      match bitcoreToAddressVersion n (pa_type r) with
      | Throw e => Throw e
      | Return v =>
          let h := Codec.Buffer_from_hex (pa_hash r) in
          match Codec.toBase58Check h v with
          | Some a => Return a
          | None => Throw (ArgumentError h v)
          end
      end
  end.

(** Modelled from the spec: the [TransactionInfo] class of the
    transaction module, which is not part of the two source files.  It
    wraps a transaction with its id, height and timestamp, and records
    for each input the id of the transaction it spends (the input's
    hash back in display order). *)
Definition new_TransactionInfo (tx : Transaction) (id : string)
           (height timestamp : option Z) : TransactionInfo :=
  mkTransactionInfo tx id height timestamp
    (List.map (fun i => Codec.Buffer_to_hex (rev (in_hash i))) (tx_ins tx)).

(** *** Client state *)

(** What the client did to its collaborators, oldest first: messages
    emitted on the socket, and runs of a wire adapter for an id. *)
Inductive Effect :=
| Emit (message event : string) (values : list string)
| Converted (id : string).

Record BitcoreBlockchain := mkBitcoreBlockchain {
  transactions : gmap string Transaction;
  watched : gset string;
  effects : list Effect
}.

(** The constructor: an empty [Map], an empty [Set], a fresh socket. *)
Definition new_BitcoreBlockchain : BitcoreBlockchain :=
  mkBitcoreBlockchain ∅ ∅ [].

Definition transactions_set (id : string) (tx : Transaction)
           (s : BitcoreBlockchain) : BitcoreBlockchain :=
  mkBitcoreBlockchain (<[id := tx]> (transactions s)) (watched s)
                      (effects s).

Definition addresses_add (a : string) (s : BitcoreBlockchain)
  : BitcoreBlockchain :=
  mkBitcoreBlockchain (transactions s) ({[a]} ∪ watched s) (effects s).

Definition perform (e : Effect) (s : BitcoreBlockchain)
  : BitcoreBlockchain :=
  mkBitcoreBlockchain (transactions s) (watched s) (effects s ++ [e]).

(** [Socket.subscribe(event, ...values)]. *)
Definition socket_subscribe (event : string) (values : list string)
           (s : BitcoreBlockchain) : BitcoreBlockchain :=
  perform (Emit "subscribe" event values) s.

Definition subscribe (addresses : list string) (s : BitcoreBlockchain)
  : BitcoreBlockchain :=
  let addresses :=
    List.filter (fun a => negb (bool_decide (a ∈ watched s))) addresses in
  let s := fold_left (fun s a => addresses_add a s) addresses s in
  socket_subscribe "address/transaction" addresses s.

Definition toInfo (r : BcTransactionInfo) (s : BitcoreBlockchain)
  : TransactionInfo * BitcoreBlockchain :=
  let id := bc_hash (bci_tx r) in
  let '(tx, s) :=
    match transactions s !! id with
    | Some tx => (tx, s)
    | None =>
        let tx := bitcoreToTransaction (bci_tx r) true in
        (tx, transactions_set id tx (perform (Converted id) s))
    end in
  (new_TransactionInfo tx id
     (if 0 <? bci_height r then Some (bci_height r) else None)
     (if 0 <? bci_height r then bci_timestamp r else None),
   s).

(** The record [bci] built by [notificationToMatch]: the notification
    with its height defaulted to [-1]. *)
Definition notificationInfo (r : BcNotification) : BcTransactionInfo :=
  mkBcTransactionInfo
    (bn_tx r)
    (match bn_height r with Some h => h | None => -1 end)
    (match bn_timestamp r with Some t => Some t | None => None end).

(** The object literal evaluates [toInfo] first, so the cache is
    updated even when the address conversion throws. *)
Definition notificationToMatch (r : BcNotification) (s : BitcoreBlockchain)
  : Result TransactionMatch * BitcoreBlockchain :=
  let bci := notificationInfo r in
  let '(i, s) := toInfo bci s in
  match bitcoreToAddress (bn_address r) with
  | Throw e => (Throw e, s)
  | Return a => (Return (mkTransactionMatch i [a] (bn_rejected r)), s)
  end.

Definition historyToMatch (r : BcHistory) (s : BitcoreBlockchain)
  : TransactionMatch * BitcoreBlockchain :=
  let '(i, s) := toInfo (bh_info r) s in
  (mkTransactionMatch i (bh_addresses r) false, s).

Section Insight.

(** The floating-point expression
    [Math.round(parseFloat(value) * 1e8)] of the insight adapter is
    kept abstract. *)
Variable roundedSatoshis : string -> Z.

Definition insightToTransaction (r : InsightTransactionInfo) : Transaction :=
  mkTransaction
    (it_version r)
    (it_locktime r)
    (List.map
       (fun ir =>
          let script := Codec.Buffer_from_hex (ii_scriptSig_hex ir) in
          let hash := rev (Codec.Buffer_from_hex (ii_txid ir)) in
          mkInput script hash
                  (JS.to_uint32 (ii_vout ir))
                  (JS.to_uint32 (ii_sequence ir)))
       (it_vin r))
    (List.map
       (fun or =>
          mkOutput (Codec.Buffer_from_hex (io_scriptPubKey_hex or))
                   (roundedSatoshis (io_value or)) None)
       (it_vout r)).

Definition insightToInfo (r : InsightTransactionInfo) (s : BitcoreBlockchain)
  : TransactionInfo * BitcoreBlockchain :=
  let id := it_txid r in
  let '(tx, s) :=
    match transactions s !! id with
    | Some tx => (tx, s)
    | None =>
        let tx := insightToTransaction r in
        (tx, transactions_set id tx (perform (Converted id) s))
    end in
  (new_TransactionInfo tx id
     (if 0 <? it_blockheight r then Some (it_blockheight r) else None)
     (if 0 <? it_blockheight r then Some (it_time r) else None),
   s).

End Insight.

(** *** Paged history lookup *)

(** The [getAddressHistory] request sent over the socket. *)
Record HistoryRequest := mkHistoryRequest {
  rq_addresses : list string;
  rq_from : Z;
  rq_to : Z;
  rq_start : option Z;
  rq_end : option Z;
  rq_queryMempool : bool
}.

(** One element of the page stream: [BcHistories & { from, to }]. *)
Record Page := mkPage {
  pg_items : list BcHistory;
  pg_totalCount : Z;
  pg_from : Z;
  pg_to : Z
}.

(** Modelled from the spec: [Stream.generate] of the stream module,
    which is not part of the two source files.  Starting from the seed
    state, the generator step produces the next state, which is emitted;
    the stream goes on while the predicate holds of the latest state
    and finishes once it fails.  [fuel] bounds the number of steps;
    [None] means the stream has not finished within it. *)
Fixpoint Stream_generate {T} (fuel : nat) (initial : T)
         (generate : T -> T) (condition : T -> bool) : option (list T) :=
  match fuel with
  | O => None
  | S fuel' =>
      let state := generate initial in
      if condition state
      then option_map (cons state)
                      (Stream_generate fuel' state generate condition)
      else Some [state]
  end.

Section Lookup.

(** The backend's answer to a history request (the resolved value of
    [socket.send]). *)
Variable send : HistoryRequest -> BcHistories.

Definition lookupAddressHistories (addresses : list string) (from to : Z)
           (start end_ : option Z) : BcHistories :=
  send (mkHistoryRequest addresses from to start end_ true).

(** The generator step of [lookupAllAddressHistories]: the request for
    the page after [previous], with the window recorded next to the
    answer. *)
Definition nextPage (addresses : list string) (start end_ : option Z)
           (pageLength : Z) (previous : Page) : Page :=
  let from := pg_to previous in
  let to := Z.min (pg_to previous + pageLength) (pg_totalCount previous) in
  let result := lookupAddressHistories addresses from to start end_ in
  mkPage (items result) (totalCount result) from to.

(** The predicate of [lookupAllAddressHistories]: more pages follow
    while [to < totalCount]. *)
Definition morePages (p : Page) : bool := pg_to p <? pg_totalCount p.

Definition lookupAllAddressHistories (fuel : nat) (addresses : list string)
           (start end_ : option Z) (pageLength : Z) : option (list Page) :=
  let initial := mkPage [] pageLength 0 0 in
  Stream_generate fuel initial
    (nextPage addresses start end_ pageLength)
    morePages.

(** [Array.prototype.map] with a callback that updates the client. *)
Fixpoint mapWith {A B} (f : A -> BitcoreBlockchain -> B * BitcoreBlockchain)
         (l : list A) (s : BitcoreBlockchain)
  : list B * BitcoreBlockchain :=
  match l with
  | [] => ([], s)
  | x :: l' =>
      let '(y, s) := f x s in
      let '(ys, s) := mapWith f l' s in
      (y :: ys, s)
  end.

Definition lookupTransactionsStream (fuel : nat) (addresses : list string)
           (start end_ : option Z) (s : BitcoreBlockchain)
  : option (list (list TransactionMatch) * BitcoreBlockchain) :=
  match lookupAllAddressHistories fuel addresses start end_ 100 with
  | None => None
  | Some pages =>
      Some (mapWith (fun r => mapWith historyToMatch (pg_items r)) pages s)
  end.

Definition lookupTransactions (fuel : nat) (addresses : list string)
           (start end_ : option Z) (s : BitcoreBlockchain)
  : option (list TransactionMatch * BitcoreBlockchain) :=
  match lookupTransactionsStream fuel addresses start end_ s with
  | None => None
  | Some (pages, s) =>
      Some (fold_left (fun previous current => previous ++ current)
                      pages [], s)
  end.

End Lookup.

End Bitcore.

(* ===================================================================== *)
(** ** Vocabulary of the specification *)
(* ===================================================================== *)

Module Spec.

Import History.

(** Sum of the values of a sequence of impacts. *)
Definition sumValues (l : list TransactionImpact) : Z :=
  foldr (fun x acc => value x + acc) 0 l.

(** Sum of the values of a sequence of outputs. *)
Definition sumOutputs (l : list Output) : Z :=
  foldr (fun o acc => out_value o + acc) 0 l.

(** The fixed type precedence [incoming < internal < outgoing]. *)
Definition rank (t : TransactionImpactType) : Z :=
  match t with
  | incoming => 0
  | internal => 1
  | outgoing => 2
  end.

(** [precedes a b]: [a] has to come before [b] in chronological
    order. *)
Inductive precedes (a b : TransactionImpact) : Prop :=
| precedes_older h1 h2 :
    height a = Some h1 -> height b = Some h2 -> h1 < h2 -> precedes a b
| precedes_confirmed h :
    height a = Some h -> height b = None -> precedes a b
| precedes_type :
    height a = height b -> rank (type a) < rank (type b) -> precedes a b.

(** The sort key of an impact: confirmed before unconfirmed, then
    height, then type rank; compared lexicographically. *)
Definition key (a : TransactionImpact) : Z * Z * Z :=
  match height a with
  | Some h => (0, h, rank (type a))
  | None => (1, 0, rank (type a))
  end.

Definition lexlt (x y : Z * Z * Z) : Prop :=
  let '(x1, x2, x3) := x in
  let '(y1, y2, y3) := y in
  x1 < y1 \/ (x1 = y1 /\ (x2 < y2 \/ (x2 = y2 /\ x3 < y3))).

(** The balance carried into an element of the fold. *)
Definition carried (prev : option TransactionImpact) : Z :=
  match prev with
  | Some p => balance p
  | None => 0
  end.

(** An output is owned when its address belongs to the external or to
    the internal chain. *)
Definition owned (external internal_ : Chain) (o : Output) : Prop :=
  exists a, out_address o = Some a /\ (a ∈ external \/ a ∈ internal_).

Definition ownedb (external internal_ : Chain) (o : Output) : bool :=
  match out_address o with
  | Some a => bool_decide (a ∈ external) || bool_decide (a ∈ internal_)
  | None => false
  end.

(** Chains hold derived addresses, which are never the empty string. *)
Definition chain_wf (c : Chain) : Prop := EmptyString ∉ c.

(** The previous output an input spends, when it resolves. *)
Definition spentOutput (transactions : TransactionMap)
           (info : TransactionInfo) (index : nat) (i : Input)
  : option Output :=
  getOutput transactions (ti_inputIds info !! index) (in_index i).

(** The resolved previous outputs of a transaction's inputs, in input
    order; inputs that do not resolve contribute nothing. *)
Definition spentOutputs (transactions : TransactionMap)
           (info : TransactionInfo) : list Output :=
  omap (fun p => spentOutput transactions info (fst p) (snd p))
       (indexed (tx_ins (ti_tx info))).

End Spec.

Module ClientSpec.

Import Bitcore.

(** One observation of a transaction by the client: a live
    notification, an item of a history page, or an insight lookup. *)
Inductive Observation :=
| Live (r : BcNotification)
| Historical (r : BcHistory)
| Insight (r : InsightTransactionInfo).

Definition observedId (o : Observation) : string :=
  match o with
  | Live r => bc_hash (bn_tx r)
  | Historical r => bc_hash (bci_tx (bh_info r))
  | Insight r => it_txid r
  end.

(** The block height the backend reported with the observation; a
    notification without one counts as [-1]. *)
Definition reportedHeight (o : Observation) : Z :=
  match o with
  | Live r => bci_height (notificationInfo r)
  | Historical r => bci_height (bh_info r)
  | Insight r => it_blockheight r
  end.

(** The interning step each observation goes through: [toInfo] for
    notifications and history items, [insightToInfo] for lookups. *)
Definition intern (roundedSatoshis : string -> Z) (o : Observation)
           (s : BitcoreBlockchain) : TransactionInfo * BitcoreBlockchain :=
  match o with
  | Live r => toInfo (notificationInfo r) s
  | Historical r => toInfo (bh_info r) s
  | Insight r => insightToInfo roundedSatoshis r s
  end.

Definition observeAll (roundedSatoshis : string -> Z)
           (obs : list Observation) (s : BitcoreBlockchain)
  : list TransactionInfo * BitcoreBlockchain :=
  mapWith (intern roundedSatoshis) obs s.

(** How many times a wire adapter ran for [id]. *)
Definition conversions (id : string) (l : list Effect) : nat :=
  length (List.filter
            (fun e => match e with
                      | Converted i => bool_decide (i = id)
                      | Emit _ _ _ => false
                      end) l).

(** Every conversion recorded so far is for a cached id, and every
    cached id was converted once. *)
Definition converted_once (s : BitcoreBlockchain) : Prop :=
  forall id, conversions id (effects s) =
             match transactions s !! id with
             | Some _ => 1%nat
             | None => 0%nat
             end.

(** The public shape of a [TransactionInfo]: the height is absent or
    strictly positive, and no timestamp comes without a height. *)
Definition exposed (ti : TransactionInfo) : Prop :=
  match ti_height ti with
  | Some h => 0 < h
  | None => ti_timestamp ti = None
  end.

(** The address version byte of a recognized network and type. *)
Definition versionByte (network type : string) : option Z :=
  if decide (network = "livenet"%string) then
    if decide (type = "pubkeyhash"%string) then Some 0x00
    else if decide (type = "scripthash"%string) then Some 0x05
    else None
  else if decide (network = "testnet"%string) then
    if decide (type = "pubkeyhash"%string) then Some 0x6f
    else if decide (type = "scripthash"%string) then Some 0xc4
    else None
  else None.

(** [ceil(a / b)] for [b > 0]. *)
Definition ceilDiv (a b : Z) : Z := (a + b - 1) / b.

(** What the backend serves from a history of [total] items: the
    reported total, and for a window [from, to) the items that fall
    in it. *)
Definition serves (send : HistoryRequest -> BcHistories) (total : Z)
  : Prop :=
  forall rq,
    totalCount (send rq) = total /\
    (0 <= rq_from rq <= rq_to rq ->
     Z.of_nat (length (items (send rq))) =
       Z.min (rq_to rq) total - Z.min (rq_from rq) total).

(** All items of a sequence of pages. *)
Definition allItems (pages : list Page) : list BcHistory :=
  concat (List.map pg_items pages).

(** A backend over a fixed history: it reports the length of the
    history and answers a window [from, to) with the items in it. *)
Definition window {X} (l : list X) (from to : Z) : list X :=
  take (Z.to_nat (to - from)) (drop (Z.to_nat from) l).

Definition historyBackend (history : list BcHistory)
  : HistoryRequest -> BcHistories :=
  fun rq =>
    mkBcHistories (window history (rq_from rq) (rq_to rq))
                  (Z.of_nat (length history)).

Definition emptyBackend : HistoryRequest -> BcHistories :=
  historyBackend [].

Definition sampleItem (n : Z) : BcHistory :=
  mkBcHistory ["1ExternalReceive0"%string]
    (mkBcTransactionInfo
       (mkBcTransaction (Codec.Buffer_to_hex [n]) 1 0 [] [])
       (100 + n) (Some (1500 + n))).

Definition sampleHistory : list BcHistory :=
  List.map sampleItem [1; 2; 3; 4; 5].

Definition sampleBackend : HistoryRequest -> BcHistories :=
  historyBackend sampleHistory.

(** One transaction observed three ways: first as a mempool
    notification, then in a history page, then through an insight
    lookup. *)
Definition sampleTx : BcTransaction :=
  mkBcTransaction "aa" 1 0
    [mkBcInput "4830" "00ff" 1 4294967295]
    [mkBcOutput "76a9" 5000].

Definition sampleNotification : BcNotification :=
  mkBcNotification
    (mkBcParsedAddress "0000000000000000000000000000000000000000"
                       "livenet" "pubkeyhash")
    false sampleTx None (Some 1500).

Definition sampleHistoryItem : BcHistory :=
  mkBcHistory ["1111111111111111111114oLvT2"%string]
              (mkBcTransactionInfo sampleTx 120 (Some 1600)).

Definition sampleInsight : InsightTransactionInfo :=
  mkInsightTransactionInfo "aa" 1 0
    [mkInsightInput "00ff" 1 "4830" 4294967295]
    [mkInsightOutput "0.00005000" "76a9"] 120 1600.

Definition sampleSatoshis : string -> Z := fun _ => 5000.

Definition sampleObservations : list Observation :=
  [Live sampleNotification; Historical sampleHistoryItem;
   Insight sampleInsight].

Definition foreignAddress : BcParsedAddress :=
  mkBcParsedAddress "0000000000000000000000000000000000000000"
                    "regtest" "pubkeyhash".

End ClientSpec.

(* ===================================================================== *)
(** ** Sample data *)
(* ===================================================================== *)

Module Sample.

Import History.

Definition unconfirmed : TransactionImpact :=
  mkImpact "c" None None incoming 700 0 [].
Definition late : TransactionImpact :=
  mkImpact "b" (Some 12) (Some 1600) incoming 500 0 [].
Definition early : TransactionImpact :=
  mkImpact "a" (Some 7) (Some 1500) outgoing (-200) 0 [].

(** A small wallet: a payment received on the external chain, a
    payment sent with change, and an unconfirmed sweep of the change
    back to the external chain. *)
Definition external : Chain := ["1ExternalReceive0"; "1ExternalReceive1"].
Definition internal_ : Chain := ["1InternalChange0"].

Definition received : Output :=
  mkOutput [] 5000 (Some "1ExternalReceive0"%string).
Definition change : Output :=
  mkOutput [] 3000 (Some "1InternalChange0"%string).
Definition paid : Output :=
  mkOutput [] 1800 (Some "1SomebodyElse"%string).
Definition swept : Output :=
  mkOutput [] 3000 (Some "1ExternalReceive1"%string).

Definition spend0 : Input := mkInput [] [] 0 4294967295.

Definition funding : TransactionInfo :=
  mkTransactionInfo (mkTransaction 1 0 [spend0] [received])
                    "funding" (Some 10) (Some 1500) ["elsewhere"%string].
Definition spending : TransactionInfo :=
  mkTransactionInfo (mkTransaction 1 0 [spend0] [change; paid])
                    "spending" (Some 11) (Some 1600) ["funding"%string].
Definition sweep : TransactionInfo :=
  mkTransactionInfo (mkTransaction 1 0 [spend0] [swept])
                    "sweep" None None ["spending"%string].

Definition wallet : TransactionMap := [sweep; spending; funding].

End Sample.

(* ===================================================================== *)
(** ** Further vocabulary *)
(* ===================================================================== *)

Module HistoryFacts.

Import History Spec.

(** [a > 0] on extended numbers. *)
Definition positive (a : JS.number) : bool :=
  match a with
  | JS.Fin z => 0 <? z
  | JS.PosInf => true
  | _ => false
  end.

(** An impact with its balance reset, as [analyzeTransaction] leaves
    it. *)
Definition withoutBalance (imp : TransactionImpact) : TransactionImpact :=
  set_balance imp 0.

(** The impacts of a transaction set before ordering. *)
Definition analyzed (transactions : TransactionMap)
           (external internal_ : Chain) : list TransactionImpact :=
  List.map (analyzeTransaction transactions external internal_)
           transactions.

(** An output whose address belongs to the chain. *)
Definition onChain (c : Chain) (o : Output) : Prop :=
  exists a, out_address o = Some a /\ a ∈ c.

(** The test of the first branch of [analyzeTransaction]: every input
    was counted as a debit and every output as a credit. *)
Definition withinAccount (transactions : TransactionMap)
           (external internal_ : Chain) (info : TransactionInfo) : bool :=
  (Z.of_nat (length (List.filter (isCredit external internal_)
                                 (spentOutputs transactions info))) =?
   Z.of_nat (length (tx_ins (ti_tx info)))) &&
  (Z.of_nat (length (List.filter (isCredit external internal_)
                                 (tx_outs (ti_tx info)))) =?
   Z.of_nat (length (tx_outs (ti_tx info)))).

End HistoryFacts.

Module MoreSamples.

Import History Sample.

(** A transaction between two parties outside the wallet. *)
Definition elsewhere : Output :=
  mkOutput [] 900 (Some "1SomebodyElse"%string).

Definition stranger : TransactionInfo :=
  mkTransactionInfo (mkTransaction 1 0 [spend0] [elsewhere])
                    "stranger" (Some 9) (Some 1400) ["unknown"%string].

Definition sweepImpact : TransactionImpact :=
  mkImpact "sweep" None None internal 0 3000 [].
Definition spendingImpact : TransactionImpact :=
  mkImpact "spending" (Some 11) (Some 1600) outgoing (-2000) 3000 [paid].
Definition fundingImpact : TransactionImpact :=
  mkImpact "funding" (Some 10) (Some 1500) incoming 5000 5000 [received].

End MoreSamples.

Module ClientFacts.

Import Bitcore ClientSpec.

(** A digit of lower-case hexadecimal. *)
Definition lowerHexDigit (c : ascii) : bool :=
  let n := Z.of_nat (nat_of_ascii c) in
  ((48 <=? n) && (n <=? 57)) || ((97 <=? n) && (n <=? 102)).

(** A string of an even number of lower-case hexadecimal digits, the
    form of a transaction id. *)
Fixpoint lowerHex (s : string) : bool :=
  match s with
  | EmptyString => true
  | String c1 (String c2 rest) =>
      lowerHexDigit c1 && lowerHexDigit c2 && lowerHex rest
  | String _ EmptyString => false
  end.

(** The id of the transaction an input spends: its hash back in
    display order. *)
Definition spentId (i : Input) : string :=
  Codec.Buffer_to_hex (rev (in_hash i)).

(** A sequence of [subscribe] calls. *)
Definition subscribeAll (calls : list (list string)) (s : BitcoreBlockchain)
  : BitcoreBlockchain :=
  fold_left (fun s addresses => subscribe addresses s) calls s.

(** The subscription message a call that forwards [values] emits. *)
Definition subscription (values : list string) : Effect :=
  Emit "subscribe" "address/transaction" values.

End ClientFacts.

(* ===================================================================== *)
(** ** The insight HTTP interface *)
(* ===================================================================== *)

Module Transport.

Import Bitcore.

(** A settled promise: resolved with a value, or rejected with an
    [Error] of the given message. *)
Inductive Promise (A : Type) :=
| Resolved (a : A)
| Rejected (message : string).

Arguments Resolved {A} a.
Arguments Rejected {A} message.

(** [promise.then(f)]. *)
Definition andThen {A B} (p : Promise A) (f : A -> Promise B) : Promise B :=
  match p with
  | Resolved a => f a
  | Rejected m => Rejected m
  end.

(** The part of a fetch [Response] the client reads: the status and
    the outcome of [r.json()]. *)
Record Response (J : Type) := mkResponse {
  status : Z;
  json : Promise J
}.

Arguments mkResponse {J} status json.
Arguments status {J} r.
Arguments json {J} r.

(** An integer in a template literal: its decimal digits. *)
Fixpoint decimalDigits (fuel : nat) (n : Z) (acc : string) : string :=
  match fuel with
  | O => acc
  | S fuel' =>
      let acc' := String (ascii_of_nat (48 + Z.to_nat (n mod 10))) acc in
      if n / 10 =? 0 then acc' else decimalDigits fuel' (n / 10) acc'
  end.

Definition decimal (n : Z) : string :=
  if n <? 0
  then ("-" +:+ decimalDigits (S (Z.to_nat (Z.log2 (- n)))) (- n) EmptyString)%string
  else decimalDigits (S (Z.to_nat (Z.log2 n))) n EmptyString.

Definition assertStatus {J} (response : Response J) (expected : Z)
  : Promise (Response J) :=
  if bool_decide (status response <> expected)
  then Rejected ("Request failed with status " +:+ decimal (status response))
  else Resolved response.

Record SocketOptions := mkSocketOptions {
  upgrade : bool;
  insightPath : string
}.

(** The [Socket] wrapper, without its socket.io handle. *)
Record Socket := mkSocket {
  endpoint : string;
  options : SocketOptions
}.

Section Fetch.

Context {J : Type}.

(** The outcome of [fetch(url)]. *)
Variable fetch : string -> Promise (Response J).

Definition fetchResponse (endpoint path : string) : Promise J :=
  andThen (andThen (fetch (endpoint +:+ "/" +:+ path))
                   (fun r => assertStatus r 200))
          (fun r => json r).

Definition sendToInsight (socket : Socket) (path : string) : Promise J :=
  fetchResponse (endpoint socket)
                (insightPath (options socket) +:+ "/" +:+ path).

End Fetch.

Definition lookupInsightTransaction
           (fetch : string -> Promise (Response InsightTransactionInfo))
           (socket : Socket) (hash : string)
  : Promise InsightTransactionInfo :=
  sendToInsight fetch socket ("tx/" +:+ hash).

(** [BitcoreBlockchain.lookupTransaction]: the insight lookup, then
    [insightToInfo] on its result. *)
Definition lookupTransaction (roundedSatoshis : string -> Z)
           (fetch : string -> Promise (Response InsightTransactionInfo))
           (socket : Socket) (hash : string) (s : BitcoreBlockchain)
  : Promise TransactionInfo * BitcoreBlockchain :=
  match lookupInsightTransaction fetch socket hash with
  | Resolved r =>
      let '(i, s) := insightToInfo roundedSatoshis r s in (Resolved i, s)
  | Rejected m => (Rejected m, s)
  end.

(** The address of the transaction resource. *)
Definition transactionUrl (socket : Socket) (hash : string) : string :=
  endpoint socket +:+ "/" +:+
  (insightPath (options socket) +:+ "/" +:+ ("tx/" +:+ hash)).

End Transport.

Module ClientSamples.

Import Bitcore ClientSpec ClientFacts Transport.

Definition samplePages : list Page :=
  default [] (lookupAllAddressHistories sampleBackend 3 [] None None 2).

Definition sampleSocket : Socket :=
  mkSocket "https://node.example" (mkSocketOptions false "insight-api").

(** An insight server that knows one transaction and answers
    everything else with 404. *)
Definition sampleFetch (url : string)
  : Promise (Response InsightTransactionInfo) :=
  if decide (url = "https://node.example/insight-api/tx/aa"%string)
  then Resolved (mkResponse 200 (Resolved sampleInsight))
  else Resolved (mkResponse 404 (Rejected "Unexpected token")).

End ClientSamples.

(* ===================================================================== *)
(** ** Known answers of the library models *)
(* ===================================================================== *)

Example sha256_constants :
  (nth 0 Codec.K256 0, nth 63 Codec.K256 0) = (0x428a2f98, 0xc67178f2) /\
  Codec.H256 !! 0%nat = Some 0x6a09e667 /\
  (length Codec.K256, length Codec.H256) = (64%nat, 8%nat).
Proof. repeat split. Qed.

Example sha256_abc :
  Codec.Buffer_to_hex (Codec.sha256 [97; 98; 99]) =
  "ba7816bf8f01cfea414140de5dae2223b00361a396177a9cb410ff61f20015ad"%string.
Proof. vm_compute. reflexivity. Qed.

Example sha256_empty :
  Codec.Buffer_to_hex (Codec.sha256 []) =
  "e3b0c44298fc1c149afbf4c8996fb92427ae41e4649b934ca495991b7852b855"%string.
Proof. vm_compute. reflexivity. Qed.

Example sha256_two_blocks :
  Codec.Buffer_to_hex (Codec.sha256 (repeat 97 64)) =
  "ffe054fe7ae0cb6dc65c3af9b61d5209f439851db43d0ba5997337df154668eb"%string.
Proof. vm_compute. reflexivity. Qed.

Example base58check_zero :
  Codec.toBase58Check (repeat 0 20) 0 =
  Some "1111111111111111111114oLvT2"%string.
Proof. vm_compute. reflexivity. Qed.

Example base58check_testnet_script :
  Codec.toBase58Check (repeat 0 20) (Codec.scriptHash Codec.testnet) =
  Some "2MsFDzHRUAMpjHxKyoEHU3aMCMsVtMqs1PV"%string.
Proof. vm_compute. reflexivity. Qed.

Example base58check_short_hash :
  Codec.toBase58Check [0] 0 = None /\
  Codec.toBase58Check (repeat 0 21) 0 = None /\
  Codec.toBase58Check (repeat 0 20) 256 = None.
Proof. repeat split. Qed.

Example hex_round_trip :
  Codec.Buffer_to_hex (rev (Codec.Buffer_from_hex "00ff10Ab")) =
  "ab10ff00"%string.
Proof. reflexivity. Qed.

(* ===================================================================== *)
(** ** Properties of the transaction history engine *)
(* ===================================================================== *)

Section SortFacts.

Context {A : Type} (cmp : A -> A -> JS.number).

Local Abbreviation before := (JS.before cmp).
Local Abbreviation notAfter := (JS.notAfter cmp).

Hypothesis before_asym : forall x y, before x y -> ~ before y x.
Hypothesis notAfter_trans :
  forall x y z, notAfter x y -> notAfter y z -> notAfter x z.

Lemma sort_insert_elem (x y : A) (l : list A) :
  y ∈ JS.sort_insert cmp x l <-> y = x \/ y ∈ l.
Proof.
  induction l as [|z l IH]; simpl.
  - rewrite list_elem_of_singleton, elem_of_nil. tauto.
  - destruct (JS.negative (cmp z x)).
    + rewrite !elem_of_cons, IH. tauto.
    + rewrite !elem_of_cons. tauto.
Qed.

Lemma sort_insert_sorted (x : A) (l : list A) :
  StronglySorted notAfter l ->
  StronglySorted notAfter (JS.sort_insert cmp x l).
Proof.
  induction 1 as [|z l Hs IH Hz]; simpl.
  - repeat constructor.
  - destruct (JS.negative (cmp z x)) eqn:Hc.
    + constructor; [exact IH|].
      apply Forall_forall. intros y Hy.
      apply sort_insert_elem in Hy as [->|Hy].
      * apply before_asym. exact Hc.
      * rewrite Forall_forall in Hz. auto.
    + assert (Hxz : notAfter x z).
      { unfold JS.notAfter, JS.before. rewrite Hc. discriminate. }
      constructor.
      * constructor; assumption.
      * constructor; [exact Hxz|].
        eapply Forall_impl; [exact Hz|].
        intros y Hy. eapply notAfter_trans; eassumption.
Qed.

Lemma sort_sorted (l : list A) : StronglySorted notAfter (JS.sort cmp l).
Proof.
  induction l as [|x l IH]; simpl.
  - constructor.
  - apply sort_insert_sorted, IH.
Qed.

Lemma sort_insert_perm (x : A) (l : list A) :
  JS.sort_insert cmp x l ≡ₚ x :: l.
Proof.
  induction l as [|z l IH]; simpl; [done|].
  destruct (JS.negative (cmp z x)); [|done].
  rewrite IH. apply Permutation_swap.
Qed.

Lemma sort_perm (l : list A) : JS.sort cmp l ≡ₚ l.
Proof.
  induction l as [|x l IH]; simpl; [done|].
  rewrite sort_insert_perm. by rewrite IH.
Qed.

Lemma sorted_lookup_notAfter (l : list A) (i j : nat) (x y : A) :
  StronglySorted notAfter l ->
  l !! i = Some x -> l !! j = Some y -> (i < j)%nat -> notAfter x y.
Proof.
  intros Hs. revert i j.
  induction Hs as [|z l Hs IH Hz]; intros i j Hi Hj Hlt.
  - by rewrite lookup_nil in Hi.
  - destruct j as [|j]; [lia|]. simpl in Hj.
    destruct i as [|i]; simpl in Hi.
    + inversion Hi; subst z.
      rewrite Forall_forall in Hz. apply Hz.
      eapply list_elem_of_lookup_2; eassumption.
    + eapply (IH i j); [assumption..|lia].
Qed.

End SortFacts.

Section Ordering.

Import History Spec.

Lemma indexOf_rank (t : TransactionImpactType) :
  JS.indexOf IMPACT_ORDERING t = rank t.
Proof. by destruct t. Qed.

Lemma precedes_key (a b : TransactionImpact) :
  precedes a b <-> lexlt (key a) (key b).
Proof.
  unfold key, lexlt. split.
  - intros [h1 h2 Ha Hb Hlt|h Ha Hb|Heq Hr].
    + rewrite Ha, Hb. lia.
    + rewrite Ha, Hb. lia.
    + rewrite Heq. destruct (height b); lia.
  - destruct (height a) as [h1|] eqn:Ha, (height b) as [h2|] eqn:Hb;
      intros H.
    + destruct (Z.eq_dec h1 h2) as [->|Hne].
      * apply precedes_type; [congruence|lia].
      * apply (precedes_older a b h1 h2); [assumption..|lia].
    + by apply (precedes_confirmed a b h1).
    + lia.
    + apply precedes_type; [congruence|lia].
Qed.

Lemma compare_negative (a b : TransactionImpact) :
  JS.negative (compareByOldestAndType a b) = true <-> precedes a b.
Proof.
  rewrite precedes_key. unfold compareByOldestAndType, key, lexlt.
  rewrite !indexOf_rank.
  destruct (height a) as [h1|], (height b) as [h2|]; simpl.
  - destruct (h1 - h2) as [|p|p] eqn:E; simpl.
    + rewrite Z.ltb_lt. lia.
    + split; [discriminate|lia].
    + split; [lia|reflexivity].
  - split; [lia|reflexivity].
  - split; [discriminate|lia].
  - rewrite Z.ltb_lt. lia.
Qed.

Lemma precedes_asym (a b : TransactionImpact) :
  precedes a b -> ~ precedes b a.
Proof.
  rewrite !precedes_key. unfold lexlt.
  destruct (key a) as [[? ?] ?], (key b) as [[? ?] ?]. lia.
Qed.

Lemma not_precedes_trans (a b c : TransactionImpact) :
  ~ precedes b a -> ~ precedes c b -> ~ precedes c a.
Proof.
  rewrite !precedes_key. unfold lexlt.
  destruct (key a) as [[? ?] ?], (key b) as [[? ?] ?],
           (key c) as [[? ?] ?]. lia.
Qed.

Lemma sort_impacts_sorted (l : list TransactionImpact) :
  StronglySorted (JS.notAfter compareByOldestAndType)
                 (JS.sort compareByOldestAndType l).
Proof.
  apply (sort_sorted compareByOldestAndType).
  - intros x y Hxy Hyx. apply compare_negative in Hxy, Hyx.
    by apply (precedes_asym x y).
  - intros x y z Hxy Hyz Hzx. apply compare_negative in Hzx.
    apply (not_precedes_trans x y z); [| |exact Hzx].
    + intros H. apply Hxy. by apply compare_negative.
    + intros H. apply Hyz. by apply compare_negative.
Qed.

(** C2. In the order produced by sorting with [compareByOldestAndType],
    an impact [a] comes before an impact [b] whenever [a] has the
    smaller present height (whatever the types), whenever [a] has a
    height and [b] has none, and whenever both have the same height
    (or both have none) and the type of [a] comes first in
    incoming < internal < outgoing. *)
Theorem sort_chronological (l : list TransactionImpact) (i j : nat)
        (a b : TransactionImpact) :
  JS.sort compareByOldestAndType l !! i = Some a ->
  JS.sort compareByOldestAndType l !! j = Some b ->
  precedes a b ->
  (i < j)%nat.
Proof.
  intros Hi Hj Hab.
  destruct (Nat.lt_trichotomy i j) as [Hlt|[Heq|Hgt]]; [exact Hlt| |].
  - subst j. rewrite Hi in Hj. inversion Hj; subst b.
    by destruct (precedes_asym a a).
  - exfalso.
    pose proof (sort_impacts_sorted l) as Hs.
    apply (sorted_lookup_notAfter _ _ _ _ _ _ Hs Hj Hi Hgt).
    by apply compare_negative.
Qed.

End Ordering.

Section OrderingExample.

Import History Spec Sample.

Lemma sort_chronological_witness :
  JS.sort compareByOldestAndType [unconfirmed; late; early] !! 0%nat
    = Some early /\
  JS.sort compareByOldestAndType [unconfirmed; late; early] !! 1%nat
    = Some late /\
  precedes early late /\
  (0 < 1)%nat.
Proof.
  split; [reflexivity|]. split; [reflexivity|].
  assert (Hp : precedes early late).
  { apply (precedes_older early late 7 12); [reflexivity..|lia]. }
  split; [exact Hp|].
  apply (sort_chronological [unconfirmed; late; early] 0 1 early late);
    [reflexivity|reflexivity|exact Hp].
Defined.

End OrderingExample.

Section Balances.

Import History Spec.

Lemma reduceBalance_length (l : list TransactionImpact) :
  forall prev, length (reduceBalance prev l) = length l.
Proof.
  induction l as [|x l IH]; intros prev; simpl; [done|].
  by rewrite IH.
Qed.

Lemma reduceBalance_lookup (l : list TransactionImpact) :
  forall prev (i : nat) (s : TransactionImpact),
    l !! i = Some s ->
    reduceBalance prev l !! i =
      Some (set_balance s (carried prev + sumValues (take (S i) l))).
Proof.
  induction l as [|x l IH]; intros prev i s Hi; [by destruct i|].
  destruct i as [|i]; simpl in Hi.
  - inversion Hi; subst x. simpl. f_equal.
    destruct prev as [p|]; simpl; f_equal; lia.
  - simpl reduceBalance. simpl lookup. rewrite (IH _ i s Hi).
    f_equal. f_equal.
    change (take (S (S i)) (x :: l)) with (x :: take (S i) l).
    destruct prev as [p|]; simpl; lia.
Qed.

Lemma reduceBalance_values (l : list TransactionImpact) :
  forall prev (n : nat),
    sumValues (take n (reduceBalance prev l)) = sumValues (take n l).
Proof.
  induction l as [|x l IH]; intros prev n; [by destruct n|].
  destruct n as [|n]; [done|]. simpl.
  rewrite IH. by destruct prev.
Qed.

End Balances.

Section Classification.

Import History Spec.

Variables (transactions : TransactionMap) (external internal_ : Chain).
Hypothesis external_wf : chain_wf external.
Hypothesis internal_wf : chain_wf internal_.

Lemma ownedb_owned (o : Output) :
  ownedb external internal_ o = true <-> owned external internal_ o.
Proof.
  unfold ownedb, owned. destruct (out_address o) as [a|].
  - rewrite orb_true_iff, !bool_decide_eq_true. split.
    + intros H. exists a. by split.
    + intros (a' & Ha & H). by inversion Ha; subst a'.
  - split; [discriminate|]. by intros (a' & Ha & _).
Qed.

Lemma isCredit_ownedb (o : Output) :
  isCredit external internal_ o = ownedb external internal_ o.
Proof.
  unfold isCredit, isExternal, isInternal, ownedb, chainContainsAddress.
  destruct (out_address o) as [a|]; [|reflexivity].
  destruct a as [|c a]; [|reflexivity]. simpl.
  symmetry. apply orb_false_intro; by apply bool_decide_eq_false.
Qed.

Lemma isCredit_owned (o : Output) :
  isCredit external internal_ o = true <-> owned external internal_ o.
Proof. rewrite isCredit_ownedb. apply ownedb_owned. Qed.

Lemma filter_isCredit (l : list Output) :
  List.filter (isCredit external internal_) l =
  List.filter (ownedb external internal_) l.
Proof.
  induction l as [|o l IH]; simpl; [done|].
  by rewrite IH, isCredit_ownedb.
Qed.

Lemma fold_creditStep (outs : list Output) :
  forall c,
    fold_left (creditStep external internal_) outs c =
    let credits := List.filter (isCredit external internal_) outs in
    mkCounters (c_value c + sumOutputs credits) (c_nDebit c)
               (c_nCredit c + Z.of_nat (length credits)).
Proof.
  induction outs as [|o outs IH]; intros c; simpl.
  - destruct c; simpl. f_equal; lia.
  - rewrite IH. unfold creditStep.
    destruct (isCredit external internal_ o); cbn; [|reflexivity].
    unfold sumOutputs. f_equal; lia.
Qed.

Lemma fold_debitStep (inputIds : list string) (ps : list (nat * Input)) :
  forall c,
    fold_left (debitStep transactions external internal_ inputIds) ps c =
    let debits :=
      List.filter (isCredit external internal_)
        (omap (fun p => getOutput transactions (inputIds !! fst p)
                                  (in_index (snd p))) ps) in
    mkCounters (c_value c - sumOutputs debits)
               (c_nDebit c + Z.of_nat (length debits))
               (c_nCredit c).
Proof.
  induction ps as [|[index i] ps IH]; intros c; cbn.
  - destruct c; cbn. f_equal; lia.
  - rewrite IH. cbn.
    destruct (getOutput transactions (inputIds !! index) (in_index i))
      as [o|]; cbn; [|reflexivity].
    destruct (isCredit external internal_ o); cbn; [|reflexivity].
    unfold sumOutputs. f_equal; lia.
Qed.

(** The counters of [analyzeTransaction] after its two loops. *)
Lemma analyzeTransaction_counters (info : TransactionInfo) :
  let debits := List.filter (isCredit external internal_)
                            (spentOutputs transactions info) in
  let credits := List.filter (isCredit external internal_)
                             (tx_outs (ti_tx info)) in
  fold_left (creditStep external internal_) (tx_outs (ti_tx info))
    (fold_left (debitStep transactions external internal_
                          (ti_inputIds info))
               (indexed (tx_ins (ti_tx info))) (mkCounters 0 0 0)) =
  mkCounters (sumOutputs credits - sumOutputs debits)
             (Z.of_nat (length debits)) (Z.of_nat (length credits)).
Proof.
  rewrite fold_creditStep, fold_debitStep. simpl.
  unfold spentOutputs, spentOutput. f_equal; lia.
Qed.

Lemma analyzeTransaction_value (info : TransactionInfo) :
  value (analyzeTransaction transactions external internal_ info) =
  sumOutputs (List.filter (isCredit external internal_)
                          (tx_outs (ti_tx info))) -
  sumOutputs (List.filter (isCredit external internal_)
                          (spentOutputs transactions info)).
Proof.
  unfold analyzeTransaction. rewrite analyzeTransaction_counters. simpl.
  repeat match goal with |- context [if ?b then _ else _] => destruct b end;
    reflexivity.
Qed.

(** C4. The value of an impact is the sum of the values of the
    transaction's outputs whose address belongs to the external or
    internal chain, minus the sum of the values of the resolved
    previous outputs of its inputs whose address belongs to one of the
    chains. *)
Theorem analyzeTransaction_value_owned (info : TransactionInfo) :
  value (analyzeTransaction transactions external internal_ info) =
  sumOutputs (List.filter (ownedb external internal_)
                          (tx_outs (ti_tx info))) -
  sumOutputs (List.filter (ownedb external internal_)
                          (spentOutputs transactions info)).
Proof. rewrite analyzeTransaction_value, !filter_isCredit. reflexivity. Qed.

Lemma analyzeTransaction_internal (info : TransactionInfo) :
  length (List.filter (isCredit external internal_)
                      (spentOutputs transactions info)) =
    length (tx_ins (ti_tx info)) ->
  length (List.filter (isCredit external internal_)
                      (tx_outs (ti_tx info))) =
    length (tx_outs (ti_tx info)) ->
  type (analyzeTransaction transactions external internal_ info) = internal /\
  targets (analyzeTransaction transactions external internal_ info) = [].
Proof.
  intros Hd Hc.
  unfold analyzeTransaction. rewrite analyzeTransaction_counters. cbn.
  rewrite Hd, Hc, !Z.eqb_refl. cbn. by split.
Qed.

Lemma combine_seq_lookup {X} (l : list X) (index : nat) (x : X) :
  forall start k,
    combine (seq start (length l)) l !! k = Some (index, x) <->
    index = (start + k)%nat /\ l !! k = Some x.
Proof.
  induction l as [|y l IH]; intros start k; cbn.
  - rewrite lookup_nil. split; [discriminate|]. by intros [_ ?].
  - destruct k as [|k]; cbn.
    + split.
      * intros H. inversion H. split; [lia|done].
      * intros [-> H]. inversion H. do 2 f_equal. lia.
    + rewrite IH. split; intros [? ?]; (split; [lia|done]).
Qed.

Lemma indexed_lookup {X} (l : list X) (k index : nat) (x : X) :
  indexed l !! k = Some (index, x) <-> index = k /\ l !! k = Some x.
Proof. unfold indexed. by rewrite combine_seq_lookup. Qed.

Lemma indexed_length {X} (l : list X) : length (indexed l) = length l.
Proof. unfold indexed. rewrite length_combine, length_seq. lia. Qed.

Lemma filter_all_length {X} (f : X -> bool) (l : list X) :
  (forall x, x ∈ l -> f x = true) ->
  length (List.filter f l) = length l.
Proof.
  induction l as [|x l IH]; intros H; cbn; [done|].
  rewrite (H x) by (apply elem_of_cons; by left). cbn.
  rewrite IH; [done|]. intros y Hy. apply H. apply elem_of_cons; by right.
Qed.

Lemma omap_all_length {X Y} (f : X -> option Y) (g : Y -> bool)
      (l : list X) :
  (forall x, x ∈ l -> exists y, f x = Some y /\ g y = true) ->
  length (List.filter g (omap f l)) = length l.
Proof.
  induction l as [|x l IH]; intros H; cbn; [done|].
  destruct (H x) as (y & -> & Hg); [apply elem_of_cons; by left|].
  cbn. rewrite Hg. cbn.
  rewrite IH; [done|]. intros z Hz. apply H. apply elem_of_cons; by right.
Qed.

(** C5. When every input resolves to a previous output owned by one of
    the two chains and every output is owned by one of the two chains,
    the transaction is classified [internal] with no targets. *)
Theorem analyzeTransaction_within_account (info : TransactionInfo) :
  (forall (index : nat) (i : Input),
      tx_ins (ti_tx info) !! index = Some i ->
      exists o, spentOutput transactions info index i = Some o /\
                owned external internal_ o) ->
  (forall o, o ∈ tx_outs (ti_tx info) -> owned external internal_ o) ->
  type (analyzeTransaction transactions external internal_ info) = internal /\
  targets (analyzeTransaction transactions external internal_ info) = [].
Proof.
  intros Hin Hout. apply analyzeTransaction_internal.
  - unfold spentOutputs. rewrite omap_all_length; [apply indexed_length|].
    intros [index i] Hp.
    apply list_elem_of_lookup in Hp as [k Hk].
    apply indexed_lookup in Hk as [-> Hk].
    destruct (Hin k i Hk) as (o & Ho & Hown).
    exists o. split; [exact Ho|]. by apply isCredit_owned.
  - apply filter_all_length. intros o Ho.
    apply isCredit_owned. by apply Hout.
Qed.

(** C6. A transaction with one input spending an owned output of 5000
    satoshis, one output of 3000 satoshis to an owned address and one
    output of 1800 satoshis to an address outside both chains is
    classified [outgoing] with value -2000, and its only target is
    the 1800-satoshi output. *)
Theorem analyzeTransaction_spend_with_change
        (info : TransactionInfo) (i : Input) (spent change paid : Output) :
  tx_ins (ti_tx info) = [i] ->
  spentOutput transactions info 0 i = Some spent ->
  owned external internal_ spent ->
  out_value spent = 5000 ->
  owned external internal_ change ->
  out_value change = 3000 ->
  ~ owned external internal_ paid ->
  out_value paid = 1800 ->
  tx_outs (ti_tx info) = [change; paid] \/
  tx_outs (ti_tx info) = [paid; change] ->
  type (analyzeTransaction transactions external internal_ info) = outgoing /\
  value (analyzeTransaction transactions external internal_ info) = -2000 /\
  targets (analyzeTransaction transactions external internal_ info) = [paid].
Proof.
  intros Hins Hspent Hs Hvs Hc Hvc Hp Hvp Houts.
  apply isCredit_owned in Hs, Hc.
  assert (Hp' : isCredit external internal_ paid = false).
  { apply not_true_is_false. intros H. by apply Hp, isCredit_owned. }
  unfold analyzeTransaction.
  rewrite analyzeTransaction_counters.
  unfold spentOutputs. rewrite Hins. cbn.
  rewrite Hspent. cbn. rewrite Hs. cbn.
  destruct Houts as [-> | ->]; cbn; rewrite Hc, Hp'; cbn;
    rewrite Hvs, Hvc; cbn; unfold isDebit; rewrite Hc, Hp'; cbn; done.
Qed.

End Classification.

Section WalletExample.

Import History Spec Sample.

Example deriveImpacts_wallet :
  deriveImpacts wallet external internal_ =
  [ mkImpact "sweep" None None internal 0 3000 [];
    mkImpact "spending" (Some 11) (Some 1600) outgoing (-2000) 3000 [paid];
    mkImpact "funding" (Some 10) (Some 1500) incoming 5000 5000 [received] ].
Proof. vm_compute. reflexivity. Qed.

Lemma sample_external_wf : chain_wf external.
Proof. unfold chain_wf, external. rewrite !elem_of_cons, elem_of_nil. by intros [|[|]]. Qed.

Lemma sample_internal_wf : chain_wf internal_.
Proof. unfold chain_wf, internal_. rewrite !elem_of_cons, elem_of_nil. by intros [|]. Qed.

Lemma sample_received_owned : owned external internal_ received.
Proof. exists "1ExternalReceive0"%string. split; [done|]. left. apply elem_of_cons. by left. Qed.

Lemma sample_change_owned : owned external internal_ change.
Proof. exists "1InternalChange0"%string. split; [done|]. right. apply elem_of_cons. by left. Qed.

Lemma sample_swept_owned : owned external internal_ swept.
Proof.
  exists "1ExternalReceive1"%string. split; [done|]. left.
  apply elem_of_cons. right. apply elem_of_cons. by left.
Qed.

Lemma sample_paid_not_owned : ~ owned external internal_ paid.
Proof.
  intros (a & Ha & H). inversion Ha; subst a.
  unfold external, internal_ in H.
  rewrite !elem_of_cons, !elem_of_nil in H. by destruct H as [[|[|]]|[|]].
Qed.

Lemma analyzeTransaction_value_owned_witness :
  chain_wf external /\ chain_wf internal_ /\
  value (analyzeTransaction wallet external internal_ spending) =
  sumOutputs (List.filter (ownedb external internal_) [change; paid]) -
  sumOutputs (List.filter (ownedb external internal_) [received]).
Proof.
  split; [exact sample_external_wf|]. split; [exact sample_internal_wf|].
  exact (analyzeTransaction_value_owned wallet external internal_
           sample_external_wf sample_internal_wf spending).
Defined.

Lemma analyzeTransaction_within_account_witness :
  type (analyzeTransaction wallet external internal_ sweep) = internal /\
  targets (analyzeTransaction wallet external internal_ sweep) = [].
Proof.
  apply (analyzeTransaction_within_account wallet external internal_
           sample_external_wf sample_internal_wf sweep).
  - intros [|index] i Hi; [|by destruct index].
    inversion Hi; subst i. exists change.
    split; [reflexivity|exact sample_change_owned].
  - intros o Ho. apply list_elem_of_singleton in Ho as ->.
    exact sample_swept_owned.
Defined.

Lemma analyzeTransaction_spend_with_change_witness :
  type (analyzeTransaction wallet external internal_ spending) = outgoing /\
  value (analyzeTransaction wallet external internal_ spending) = -2000 /\
  targets (analyzeTransaction wallet external internal_ spending) = [paid].
Proof.
  apply (analyzeTransaction_spend_with_change wallet external internal_
           sample_external_wf sample_internal_wf spending spend0
           received change paid).
  - reflexivity.
  - reflexivity.
  - exact sample_received_owned.
  - reflexivity.
  - exact sample_change_owned.
  - reflexivity.
  - exact sample_paid_not_owned.
  - reflexivity.
  - left. reflexivity.
Defined.

End WalletExample.

(* ===================================================================== *)
(** ** Properties of the bitcore client *)
(* ===================================================================== *)

Section Subscription.

Import Bitcore ClientSpec.

Lemma fold_addresses_add (l : list string) :
  forall s,
    let s' := fold_left (fun s a => addresses_add a s) l s in
    transactions s' = transactions s /\
    watched s' = list_to_set l ∪ watched s /\
    effects s' = effects s.
Proof.
  induction l as [|a l IH]; intros s; cbn.
  - split; [done|]. split; [|done]. by rewrite (left_id_L ∅ (∪)).
  - destruct (IH (addresses_add a s)) as (Ht & Hw & He).
    rewrite Ht, Hw, He. cbn. split; [done|]. split; [|done].
    rewrite (comm_L (∪) {[a]} (list_to_set l)).
    by rewrite (assoc_L (∪)).
Qed.

Lemma subscribe_forwarded (addresses : list string) (s : BitcoreBlockchain) :
  transactions (subscribe addresses s) = transactions s /\
  watched (subscribe addresses s) =
    list_to_set
      (List.filter (fun a => negb (bool_decide (a ∈ watched s))) addresses)
    ∪ watched s /\
  effects (subscribe addresses s) =
    effects s ++
    [Emit "subscribe" "address/transaction"
          (List.filter (fun a => negb (bool_decide (a ∈ watched s)))
                       addresses)].
Proof.
  unfold subscribe, socket_subscribe, perform. cbn.
  destruct (fold_addresses_add
              (List.filter (fun a => negb (bool_decide (a ∈ watched s)))
                           addresses) s) as (Ht & Hw & He).
  rewrite Ht, Hw, He. done.
Qed.

Lemma elem_of_unwatched (addresses : list string) (w : gset string) a :
  a ∈ List.filter (fun a => negb (bool_decide (a ∈ w))) addresses <->
  a ∈ addresses /\ a ∉ w.
Proof.
  rewrite list_elem_of_In, filter_In, <- list_elem_of_In.
  rewrite negb_true_iff, bool_decide_eq_false. done.
Qed.

Lemma unwatched_nil (addresses : list string) (w : gset string) :
  (forall a, a ∈ addresses -> a ∈ w) ->
  List.filter (fun a => negb (bool_decide (a ∈ w))) addresses = [].
Proof.
  intros H.
  destruct (List.filter _ addresses) as [|a l] eqn:E; [done|].
  assert (Ha : a ∈ a :: l) by (apply elem_of_cons; by left).
  rewrite <- E in Ha. apply elem_of_unwatched in Ha as [Ha Hn].
  by destruct Hn; apply H.
Qed.

(** C9. [subscribe] forwards to the socket exactly the given addresses
    that are not yet watched, adds every forwarded address to the
    watched set (and nothing else), and forwards no address that is
    already watched: a call with watched addresses only, and in
    particular a repeated call, sends an empty list and leaves the
    watched set as it is. *)
Theorem subscribe_idempotent (addresses : list string)
        (s : BitcoreBlockchain) :
  exists forwarded : list string,
    effects (subscribe addresses s) =
      effects s ++ [Emit "subscribe" "address/transaction" forwarded] /\
    (forall a, a ∈ forwarded <-> a ∈ addresses /\ a ∉ watched s) /\
    (forall a, a ∈ watched (subscribe addresses s) <->
               a ∈ watched s \/ a ∈ forwarded) /\
    ((forall a, a ∈ addresses -> a ∈ watched s) ->
     forwarded = [] /\ watched (subscribe addresses s) = watched s) /\
    effects (subscribe addresses (subscribe addresses s)) =
      effects (subscribe addresses s) ++
      [Emit "subscribe" "address/transaction" []] /\
    watched (subscribe addresses (subscribe addresses s)) =
      watched (subscribe addresses s).
Proof.
  destruct (subscribe_forwarded addresses s) as (_ & Hw & He).
  set (forwarded :=
         List.filter (fun a => negb (bool_decide (a ∈ watched s))) addresses)
    in *.
  assert (Hf : forall a, a ∈ forwarded <-> a ∈ addresses /\ a ∉ watched s)
    by (intros a; apply elem_of_unwatched).
  assert (Hall : forall a, a ∈ addresses -> a ∈ watched (subscribe addresses s)).
  { intros a Ha. rewrite Hw, elem_of_union, elem_of_list_to_set, Hf.
    destruct (decide (a ∈ watched s)); tauto. }
  exists forwarded. split; [exact He|]. split; [exact Hf|]. split.
  { intros a. rewrite Hw, elem_of_union, elem_of_list_to_set. tauto. }
  split.
  { intros H. apply unwatched_nil in H. fold forwarded in H.
    split; [exact H|]. rewrite Hw, H. cbn. apply (left_id_L ∅ (∪)). }
  destruct (subscribe_forwarded addresses (subscribe addresses s))
    as (_ & Hw2 & He2).
  rewrite (unwatched_nil _ _ Hall) in Hw2, He2.
  split; [exact He2|]. rewrite Hw2. cbn. apply (left_id_L ∅ (∪)).
Qed.

End Subscription.

Section Interning.

Import Bitcore ClientSpec.

Variable roundedSatoshis : string -> Z.

Local Abbreviation intern := (ClientSpec.intern roundedSatoshis).
Local Abbreviation observeAll := (ClientSpec.observeAll roundedSatoshis).

(** What one interning step does to the cache and to the record of
    conversions. *)
Lemma intern_step (o : Observation) (s : BitcoreBlockchain) :
  match transactions s !! observedId o with
  | Some tx =>
      ti_tx (intern o s).1 = tx /\
      (intern o s).2 = s
  | None =>
      transactions (intern o s).2 =
        <[observedId o := ti_tx (intern o s).1]> (transactions s) /\
      effects (intern o s).2 = effects s ++ [Converted (observedId o)] /\
      watched (intern o s).2 = watched s
  end.
Proof.
  destruct o as [r|r|r]; cbn; unfold toInfo, insightToInfo; cbn;
    match goal with |- context [transactions s !! ?id] =>
      destruct (transactions s !! id) eqn:E end; cbn; auto.
Qed.

Lemma intern_id (o : Observation) (s : BitcoreBlockchain) :
  ti_id (intern o s).1 = observedId o.
Proof.
  destruct o as [r|r|r]; cbn; unfold toInfo, insightToInfo; cbn;
    match goal with |- context [transactions s !! ?id] =>
      destruct (transactions s !! id) end; reflexivity.
Qed.

Lemma intern_cached (o : Observation) (s : BitcoreBlockchain) :
  transactions (intern o s).2 !! observedId o = Some (ti_tx (intern o s).1).
Proof.
  pose proof (intern_step o s) as H.
  destruct (transactions s !! observedId o) as [tx|] eqn:E.
  - destruct H as [-> ->]. exact E.
  - destruct H as (-> & _). apply lookup_insert_eq.
Qed.

Lemma intern_stable (o : Observation) (s : BitcoreBlockchain) id tx :
  transactions s !! id = Some tx ->
  transactions (intern o s).2 !! id = Some tx.
Proof.
  intros Hid. pose proof (intern_step o s) as H.
  destruct (transactions s !! observedId o) as [tx'|] eqn:E.
  - destruct H as [_ ->]. exact Hid.
  - destruct H as (-> & _). rewrite lookup_insert_ne; [exact Hid|].
    intros <-. congruence.
Qed.

Lemma conversions_app id (l1 l2 : list Effect) :
  conversions id (l1 ++ l2) = (conversions id l1 + conversions id l2)%nat.
Proof. unfold conversions. by rewrite List.filter_app, length_app. Qed.

Lemma intern_converted_once (o : Observation) (s : BitcoreBlockchain) :
  converted_once s -> converted_once (intern o s).2.
Proof.
  intros Hs id. pose proof (intern_step o s) as H.
  destruct (transactions s !! observedId o) as [tx'|] eqn:E.
  - destruct H as [_ ->]. apply Hs.
  - destruct H as (-> & -> & _). rewrite conversions_app, Hs.
    unfold conversions at 1. cbn.
    destruct (decide (observedId o = id)) as [<-|Hne].
    + rewrite lookup_insert_eq, E, bool_decide_eq_true_2; done.
    + rewrite lookup_insert_ne, bool_decide_eq_false_2 by done. cbn.
      destruct (transactions s !! id); lia.
Qed.

Lemma observeAll_cons (o : Observation) (obs : list Observation)
      (s : BitcoreBlockchain) :
  observeAll (o :: obs) s =
  ((intern o s).1 :: (observeAll obs (intern o s).2).1,
   (observeAll obs (intern o s).2).2).
Proof.
  unfold ClientSpec.observeAll. cbn.
  destruct (ClientSpec.intern roundedSatoshis o s) as [y s1]. cbn.
  by destruct (mapWith (ClientSpec.intern roundedSatoshis) obs s1).
Qed.

Lemma observeAll_app (obs1 obs2 : list Observation) :
  forall s,
    observeAll (obs1 ++ obs2) s =
    ((observeAll obs1 s).1 ++ (observeAll obs2 (observeAll obs1 s).2).1,
     (observeAll obs2 (observeAll obs1 s).2).2).
Proof.
  induction obs1 as [|o obs1 IH]; intros s.
  - unfold ClientSpec.observeAll. cbn.
    by destruct (mapWith (ClientSpec.intern roundedSatoshis) obs2 s).
  - rewrite <- app_comm_cons, !observeAll_cons, IH. reflexivity.
Qed.

Lemma observeAll_stable (obs : list Observation) :
  forall s id tx,
    transactions s !! id = Some tx ->
    transactions (observeAll obs s).2 !! id = Some tx.
Proof.
  induction obs as [|o obs IH]; intros s id tx H; [exact H|].
  rewrite observeAll_cons. cbn. by apply IH, intern_stable.
Qed.

Lemma observeAll_converted_once (obs : list Observation) :
  forall s, converted_once s -> converted_once (observeAll obs s).2.
Proof.
  induction obs as [|o obs IH]; intros s H; [exact H|].
  rewrite observeAll_cons. cbn. by apply IH, intern_converted_once.
Qed.

Lemma observeAll_cached (obs : list Observation) :
  forall s (i : nat) o,
    obs !! i = Some o ->
    exists ti,
      (observeAll obs s).1 !! i = Some ti /\
      transactions (observeAll obs s).2 !! observedId o = Some (ti_tx ti).
Proof.
  induction obs as [|o' obs IH]; intros s i o Hi; [by destruct i|].
  rewrite observeAll_cons. destruct i as [|i]; cbn in Hi |- *.
  - inversion Hi; subst o'. eexists. split; [reflexivity|].
    apply observeAll_stable, intern_cached.
  - by apply IH.
Qed.

(** C7. Starting from a fresh client, for any sequence of observations
    (notifications, history items and insight lookups in any order):
    two observations of the same id get the same [Transaction]; a wire
    adapter runs exactly once for every observed id; and an id that the
    cache maps to a transaction at some point is mapped to that same
    transaction ever after. *)
Theorem interning_exactly_once (obs : list Observation) :
  (forall (i j : nat) oi oj ti tj,
      obs !! i = Some oi -> obs !! j = Some oj ->
      observedId oi = observedId oj ->
      (observeAll obs new_BitcoreBlockchain).1 !! i = Some ti ->
      (observeAll obs new_BitcoreBlockchain).1 !! j = Some tj ->
      ti_tx ti = ti_tx tj) /\
  (forall o,
      o ∈ obs ->
      conversions (observedId o)
                  (effects (observeAll obs new_BitcoreBlockchain).2) = 1%nat) /\
  (forall (k : nat) id tx,
      transactions (observeAll (take k obs) new_BitcoreBlockchain).2 !! id
        = Some tx ->
      transactions (observeAll obs new_BitcoreBlockchain).2 !! id = Some tx).
Proof.
  split; [|split].
  - intros i j oi oj ti tj Hi Hj Hid Hti Htj.
    destruct (observeAll_cached obs new_BitcoreBlockchain i oi Hi)
      as (ti' & Hti' & Hci).
    destruct (observeAll_cached obs new_BitcoreBlockchain j oj Hj)
      as (tj' & Htj' & Hcj).
    rewrite Hti in Hti'. rewrite Htj in Htj'.
    inversion Hti'; inversion Htj'; subst ti' tj'.
    rewrite Hid in Hci. rewrite Hci in Hcj. by inversion Hcj.
  - intros o Ho. apply list_elem_of_lookup in Ho as [i Hi].
    destruct (observeAll_cached obs new_BitcoreBlockchain i o Hi)
      as (ti & _ & Hc).
    rewrite (observeAll_converted_once obs new_BitcoreBlockchain).
    + by rewrite Hc.
    + intros id. cbn. by rewrite lookup_empty.
  - intros k id tx H.
    rewrite <- (take_drop k obs) at 1. rewrite observeAll_app. cbn.
    by apply observeAll_stable.
Qed.

End Interning.

Section Exposure.

Import Bitcore ClientSpec.

Lemma notificationToMatch_intern (roundedSatoshis : string -> Z)
      (r : BcNotification) (s : BitcoreBlockchain) :
  (notificationToMatch r s).2 = (intern roundedSatoshis (Live r) s).2 /\
  (forall m, (notificationToMatch r s).1 = Return m ->
             info m = (intern roundedSatoshis (Live r) s).1).
Proof.
  unfold notificationToMatch. cbn.
  destruct (toInfo (notificationInfo r) s) as [i s'].
  destruct (bitcoreToAddress (bn_address r)); cbn.
  - split; [reflexivity|]. intros m H. by inversion H.
  - split; [reflexivity|]. intros m H. discriminate.
Qed.

Lemma historyToMatch_intern (roundedSatoshis : string -> Z)
      (r : BcHistory) (s : BitcoreBlockchain) :
  (historyToMatch r s).2 = (intern roundedSatoshis (Historical r) s).2 /\
  info (historyToMatch r s).1 = (intern roundedSatoshis (Historical r) s).1.
Proof.
  unfold historyToMatch. cbn.
  by destruct (toInfo (bh_info r) s) as [i s'].
Qed.

(** Mapping [historyToMatch] over the items of a page observes each
    item in order. *)
Lemma historyPage_observed (roundedSatoshis : string -> Z)
      (page : list BcHistory) :
  forall s,
    (mapWith historyToMatch page s).2 =
      (observeAll roundedSatoshis (List.map Historical page) s).2 /\
    List.map info (mapWith historyToMatch page s).1 =
      (observeAll roundedSatoshis (List.map Historical page) s).1.
Proof.
  unfold observeAll.
  induction page as [|r page IH]; intros s; [done|]. cbn.
  unfold historyToMatch at 1 3.
  destruct (toInfo (bh_info r) s) as [i s1].
  destruct (IH s1) as [IH2 IH1].
  destruct (mapWith historyToMatch page s1) as [ms s2].
  destruct (mapWith (intern roundedSatoshis) (List.map Historical page) s1)
    as [infos s3].
  cbn in *. by subst.
Qed.

Lemma toInfo_exposed (r : BcTransactionInfo) (s : BitcoreBlockchain) :
  exposed (toInfo r s).1 /\
  (bci_height r <= 0 ->
   ti_height (toInfo r s).1 = None /\ ti_timestamp (toInfo r s).1 = None) /\
  (0 < bci_height r ->
   ti_height (toInfo r s).1 = Some (bci_height r) /\
   ti_timestamp (toInfo r s).1 = bci_timestamp r).
Proof.
  unfold toInfo, exposed.
  destruct (transactions s !! bc_hash (bci_tx r)); cbn;
    destruct (Z.ltb_spec 0 (bci_height r)); cbn;
    repeat split; intros; try lia; done.
Qed.

Lemma insightToInfo_exposed (roundedSatoshis : string -> Z)
      (r : InsightTransactionInfo) (s : BitcoreBlockchain) :
  exposed (insightToInfo roundedSatoshis r s).1 /\
  (it_blockheight r <= 0 ->
   ti_height (insightToInfo roundedSatoshis r s).1 = None /\
   ti_timestamp (insightToInfo roundedSatoshis r s).1 = None) /\
  (0 < it_blockheight r ->
   ti_height (insightToInfo roundedSatoshis r s).1 = Some (it_blockheight r) /\
   ti_timestamp (insightToInfo roundedSatoshis r s).1 = Some (it_time r)).
Proof.
  unfold insightToInfo, exposed.
  destruct (transactions s !! it_txid r); cbn;
    destruct (Z.ltb_spec 0 (it_blockheight r)); cbn;
    repeat split; intros; try lia; done.
Qed.

(** C10. Every [TransactionInfo] the client produces, through
    [toInfo], [insightToInfo], [notificationToMatch] or
    [historyToMatch], has a height that is absent or strictly positive
    and no timestamp without a height.  A record whose reported block
    height is 0 or negative, and a notification without a height (the
    -1 sentinel), come out with neither height nor timestamp, whatever
    timestamp the backend supplied. *)
Theorem produced_info_exposed (roundedSatoshis : string -> Z)
        (s : BitcoreBlockchain) :
  (forall r : BcTransactionInfo,
      exposed (toInfo r s).1 /\
      (bci_height r <= 0 ->
       ti_height (toInfo r s).1 = None /\
       ti_timestamp (toInfo r s).1 = None)) /\
  (forall r : InsightTransactionInfo,
      exposed (insightToInfo roundedSatoshis r s).1 /\
      (it_blockheight r <= 0 ->
       ti_height (insightToInfo roundedSatoshis r s).1 = None /\
       ti_timestamp (insightToInfo roundedSatoshis r s).1 = None)) /\
  (forall (r : BcNotification) (m : TransactionMatch),
      (notificationToMatch r s).1 = Return m ->
      exposed (info m) /\
      (bn_height r = None \/ (exists h, bn_height r = Some h /\ h <= 0) ->
       ti_height (info m) = None /\ ti_timestamp (info m) = None)) /\
  (forall r : BcHistory,
      exposed (info (historyToMatch r s).1) /\
      (bci_height (bh_info r) <= 0 ->
       ti_height (info (historyToMatch r s).1) = None /\
       ti_timestamp (info (historyToMatch r s).1) = None)) /\
  (forall r r' : BcTransactionInfo,
      bci_tx r = bci_tx r' -> bci_height r <= 0 -> bci_height r' <= 0 ->
      (toInfo r s).1 = (toInfo r' s).1).
Proof.
  split; [|split; [|split; [|split]]]; cycle 4.
  { intros r r' Htx Hr Hr'. unfold toInfo. rewrite Htx.
    destruct (Z.ltb_spec 0 (bci_height r)); [lia|].
    destruct (Z.ltb_spec 0 (bci_height r')); [lia|].
    by destruct (transactions s !! bc_hash (bci_tx r')). }
  - intros r. destruct (toInfo_exposed r s) as (H1 & H2 & _). by split.
  - intros r.
    destruct (insightToInfo_exposed roundedSatoshis r s) as (H1 & H2 & _).
    by split.
  - intros r m Hm.
    destruct (notificationToMatch_intern roundedSatoshis r s) as [_ Hi].
    rewrite (Hi m Hm). cbn.
    destruct (toInfo_exposed (notificationInfo r) s) as (H1 & H2 & _).
    split; [exact H1|]. intros Hh. apply H2. cbn.
    destruct Hh as [->|(h & -> & Hle)]; lia.
  - intros r.
    destruct (historyToMatch_intern roundedSatoshis r s) as [_ ->]. cbn.
    destruct (toInfo_exposed (bh_info r) s) as (H1 & H2 & _). by split.
Qed.

End Exposure.

Section Addresses.

Import Bitcore ClientSpec.

Lemma versionByte_byte (network type : string) (v : Z) :
  versionByte network type = Some v -> 0 <= v <= 255.
Proof.
  unfold versionByte. repeat case_decide; intros Hv; inversion Hv; lia.
Qed.

Lemma bitcoreToAddress_recognized (r : BcParsedAddress) (v : Z) :
  versionByte (pa_network r) (pa_type r) = Some v ->
  bitcoreToAddress r =
    match Codec.toBase58Check (Codec.Buffer_from_hex (pa_hash r)) v with
    | Some a => Return a
    | None => Throw (ArgumentError (Codec.Buffer_from_hex (pa_hash r)) v)
    end.
Proof.
  unfold bitcoreToAddress, bitcoreToNetwork, bitcoreToAddressVersion,
    versionByte.
  repeat case_decide; intros Hv; inversion Hv; reflexivity.
Qed.

Lemma toBase58Check_checked (hash : Buffer) (v : Z) :
  0 <= v <= 255 ->
  Codec.toBase58Check hash v =
    if decide (length hash = 20%nat)
    then Some (Codec.base58check (v :: hash))
    else None.
Proof.
  intros Hv. unfold Codec.toBase58Check.
  destruct (Z.leb_spec 0 v); [|lia]. destruct (Z.leb_spec v 255); [|lia].
  rewrite !andb_true_r.
  destruct (Nat.eqb_spec (length hash) 20); by case_decide.
Qed.

(** C8 as stated fails: for the recognized network livenet and type
    pubkeyhash, a descriptor whose hash is one byte long yields no
    address but an error. *)
Lemma recognized_descriptor_may_throw :
  ~ (forall (r : BcParsedAddress) (v : Z),
        versionByte (pa_network r) (pa_type r) = Some v ->
        bitcoreToAddress r =
          Return (Codec.base58check (v :: Codec.Buffer_from_hex (pa_hash r)))).
Proof.
  intros H.
  specialize (H (mkBcParsedAddress "00" "livenet" "pubkeyhash") 0 eq_refl).
  discriminate H.
Qed.

(** C8 (amended). [bitcoreToAddress] throws whenever the network is
    neither livenet nor testnet or the type is neither pubkeyhash nor
    scripthash.  For a recognized network and type and a hash that
    decodes to 20 bytes it returns the Base58Check encoding of the
    version byte of that network and type followed by the hash; for a
    hash of any other length it throws as well.  No other input
    yields an address.  For livenet, pubkeyhash and twenty zero bytes
    the result is 1111111111111111111114oLvT2. *)
Theorem bitcoreToAddress_strict (r : BcParsedAddress) :
  ((pa_network r <> "livenet"%string /\ pa_network r <> "testnet"%string) \/
   (pa_type r <> "pubkeyhash"%string /\ pa_type r <> "scripthash"%string) ->
   exists e, bitcoreToAddress r = Throw e) /\
  (forall v, versionByte (pa_network r) (pa_type r) = Some v ->
             length (Codec.Buffer_from_hex (pa_hash r)) = 20%nat ->
             bitcoreToAddress r =
               Return (Codec.base58check
                         (v :: Codec.Buffer_from_hex (pa_hash r)))) /\
  (length (Codec.Buffer_from_hex (pa_hash r)) <> 20%nat ->
   exists e, bitcoreToAddress r = Throw e) /\
  (forall a, bitcoreToAddress r = Return a ->
             (pa_network r = "livenet"%string \/
              pa_network r = "testnet"%string) /\
             (pa_type r = "pubkeyhash"%string \/
              pa_type r = "scripthash"%string) /\
             length (Codec.Buffer_from_hex (pa_hash r)) = 20%nat) /\
  bitcoreToAddress
    (mkBcParsedAddress "0000000000000000000000000000000000000000"
                       "livenet" "pubkeyhash") =
    Return "1111111111111111111114oLvT2"%string.
Proof.
  assert (Hcases :
    (exists e, bitcoreToAddress r = Throw e /\
               versionByte (pa_network r) (pa_type r) = None) \/
    (exists v, versionByte (pa_network r) (pa_type r) = Some v)).
  { unfold bitcoreToAddress, bitcoreToNetwork, bitcoreToAddressVersion,
      versionByte.
    repeat case_decide; eauto. }
  assert (Hnone :
    versionByte (pa_network r) (pa_type r) = None <->
    (pa_network r <> "livenet"%string /\ pa_network r <> "testnet"%string) \/
    (pa_type r <> "pubkeyhash"%string /\ pa_type r <> "scripthash"%string)).
  { unfold versionByte. repeat case_decide; subst; split;
      try discriminate; try tauto;
      intros [[? ?]|[? ?]]; congruence. }
  split; [|split; [|split; [|split]]].
  - intros H. apply Hnone in H.
    destruct Hcases as [(e & He & _)|(v & Hv)]; [by exists e|congruence].
  - intros v Hv Hlen.
    rewrite (bitcoreToAddress_recognized r v Hv).
    rewrite (toBase58Check_checked _ v (versionByte_byte _ _ v Hv)).
    by case_decide.
  - intros Hlen.
    destruct Hcases as [(e & He & _)|(v & Hv)]; [by exists e|].
    rewrite (bitcoreToAddress_recognized r v Hv).
    rewrite (toBase58Check_checked _ v (versionByte_byte _ _ v Hv)).
    case_decide; [done|by eexists].
  - intros a Ha.
    destruct Hcases as [(e & He & _)|(v & Hv)]; [congruence|].
    assert (Hrec : ~ ((pa_network r <> "livenet"%string /\
                       pa_network r <> "testnet"%string) \/
                      (pa_type r <> "pubkeyhash"%string /\
                       pa_type r <> "scripthash"%string))).
    { intros H. apply Hnone in H. congruence. }
    rewrite (bitcoreToAddress_recognized r v Hv) in Ha.
    rewrite (toBase58Check_checked _ v (versionByte_byte _ _ v Hv)) in Ha.
    case_decide as Hlen; [|discriminate].
    split; [|split; [|exact Hlen]].
    + destruct (decide (pa_network r = "livenet"%string)); [by left|].
      destruct (decide (pa_network r = "testnet"%string)); [by right|].
      destruct Hrec. by left.
    + destruct (decide (pa_type r = "pubkeyhash"%string)); [by left|].
      destruct (decide (pa_type r = "scripthash"%string)); [by right|].
      destruct Hrec. by right.
  - vm_compute. reflexivity.
Qed.

End Addresses.

Section Pagination.

Import Bitcore ClientSpec.

Lemma ceilDiv_step (a p : Z) :
  0 < p -> ceilDiv a p = ceilDiv (a - p) p + 1.
Proof.
  intros Hp. unfold ceilDiv.
  replace (a + p - 1) with (a - p + p - 1 + 1 * p) by lia.
  rewrite Z.div_add by lia. reflexivity.
Qed.

Lemma ceilDiv_one (a p : Z) : 0 < a <= p -> ceilDiv a p = 1.
Proof.
  intros H. rewrite (ceilDiv_step a p) by lia. unfold ceilDiv.
  replace (a - p + p - 1) with (a - 1) by lia.
  rewrite Z.div_small by lia. reflexivity.
Qed.

Lemma ceilDiv_zero (p : Z) : 0 < p -> ceilDiv 0 p = 0.
Proof. intros H. unfold ceilDiv. apply Z.div_small. lia. Qed.

Lemma ceilDiv_pos (a p : Z) : 0 < p -> 0 < a -> 0 < ceilDiv a p.
Proof.
  intros Hp Ha. unfold ceilDiv.
  apply Z.div_str_pos. lia.
Qed.

Lemma Stream_generate_more {T} (generate : T -> T) (condition : T -> bool) :
  forall (fuel fuel' : nat) (initial : T) (l : list T),
    Stream_generate fuel initial generate condition = Some l ->
    (fuel <= fuel')%nat ->
    Stream_generate fuel' initial generate condition = Some l.
Proof.
  induction fuel as [|fuel IH]; intros fuel' initial l H Hle;
    [discriminate|].
  destruct fuel' as [|fuel']; [lia|]. cbn in H |- *.
  destruct (condition (generate initial)); [|exact H].
  destruct (Stream_generate fuel (generate initial) generate condition)
    as [l'|] eqn:E; [|discriminate].
  rewrite (IH fuel' _ l' E) by lia. exact H.
Qed.

(** The stream stops at the first state that fails the predicate. *)
Lemma Stream_generate_stops {T} (generate : T -> T) (condition : T -> bool) :
  forall (fuel : nat) (initial : T) (l : list T),
    Stream_generate fuel initial generate condition = Some l ->
    exists front last,
      l = front ++ [last] /\
      Forall (fun x => condition x = true) front /\
      condition last = false.
Proof.
  induction fuel as [|fuel IH]; intros initial l H; [discriminate|].
  cbn in H. destruct (condition (generate initial)) eqn:Ec.
  - destruct (Stream_generate fuel (generate initial) generate condition)
      as [l'|] eqn:E; [|discriminate].
    inversion H; subst l.
    destruct (IH _ _ E) as (front & last & -> & Hf & Hl).
    exists (generate initial :: front), last.
    split; [reflexivity|]. split; [by constructor|exact Hl].
  - inversion H; subst l. exists [], (generate initial).
    split; [reflexivity|]. split; [constructor|exact Ec].
Qed.

Lemma Stream_generate_fuel {T} (generate : T -> T) (condition : T -> bool)
      (fuel fuel' : nat) (initial : T) (l l' : list T) :
  Stream_generate fuel initial generate condition = Some l ->
  Stream_generate fuel' initial generate condition = Some l' ->
  l = l'.
Proof.
  intros H H'.
  apply (Stream_generate_more _ _ _ (Nat.max fuel fuel')) in H; [|lia].
  apply (Stream_generate_more _ _ _ (Nat.max fuel fuel')) in H'; [|lia].
  congruence.
Qed.

Variable send : HistoryRequest -> BcHistories.
Variable total : Z.
Variables (addresses : list string) (start end_ : option Z).

Hypothesis total_nonneg : 0 <= total.
Hypothesis backend_serves : serves send total.

Section PageLength.

Variable pageLength : Z.
Hypothesis pageLength_pos : 0 < pageLength.

Local Abbreviation nextPage :=
  (Bitcore.nextPage send addresses start end_ pageLength).

Lemma nextPage_served (previous : Page) :
  0 <= pg_to previous <= pg_totalCount previous ->
  pg_totalCount (nextPage previous) = total /\
  pg_from (nextPage previous) = pg_to previous /\
  pg_to (nextPage previous) =
    Z.min (pg_to previous + pageLength) (pg_totalCount previous) /\
  Z.of_nat (length (pg_items (nextPage previous))) =
    Z.min (pg_to (nextPage previous)) total - Z.min (pg_to previous) total.
Proof.
  intros Hto. unfold Bitcore.nextPage, lookupAddressHistories. cbn.
  destruct (backend_serves
              (mkHistoryRequest addresses (pg_to previous)
                 (Z.min (pg_to previous + pageLength)
                        (pg_totalCount previous)) start end_ true))
    as [Ht Hi].
  cbn in Hi. split; [exact Ht|]. split; [reflexivity|].
  split; [reflexivity|]. apply Hi. lia.
Qed.

(** Pages generated after a page that ended at [to < total]. *)
Lemma pages_after (fuel : nat) :
  forall previous : Page,
    pg_totalCount previous = total ->
    0 <= pg_to previous < total ->
    ceilDiv (total - pg_to previous) pageLength <= Z.of_nat fuel ->
    exists pages,
      Stream_generate fuel previous nextPage morePages = Some pages /\
      Z.of_nat (length pages) =
        ceilDiv (total - pg_to previous) pageLength /\
      Z.of_nat (length (allItems pages)) = total - pg_to previous.
Proof.
  induction fuel as [|fuel IH]; intros previous Htc Hto Hfuel.
  - pose proof (ceilDiv_pos (total - pg_to previous) pageLength). lia.
  - destruct (nextPage_served previous) as (Nt & Nf & Nto & Ni); [lia|].
    cbn [Stream_generate].
    rewrite Htc in Nto.
    unfold morePages at 1.
    destruct (Z.ltb_spec (pg_to (nextPage previous))
                         (pg_totalCount (nextPage previous))) as [Hlt|Hge].
    + rewrite Nt in Hlt.
      rewrite (ceilDiv_step (total - pg_to previous) pageLength) in Hfuel |- *
        by lia.
      destruct (IH (nextPage previous)) as (pages & Hg & Hn & Hi).
      * exact Nt.
      * lia.
      * rewrite Nto.
        replace (total - Z.min (pg_to previous + pageLength) total)
          with (total - pg_to previous - pageLength) by lia.
        lia.
      * exists (nextPage previous :: pages).
        rewrite Hg. split; [reflexivity|].
        rewrite Nto in Hn, Hi.
        split.
        -- rewrite length_cons, Nat2Z.inj_succ, Hn.
           replace (total - Z.min (pg_to previous + pageLength) total)
             with (total - pg_to previous - pageLength) by lia.
           lia.
        -- unfold allItems in Hi |- *.
           rewrite map_cons, concat_cons, length_app, Nat2Z.inj_add, Hi, Ni.
           lia.
    + rewrite Nt in Hge.
      exists [nextPage previous]. split; [reflexivity|].
      split.
      * rewrite (ceilDiv_one (total - pg_to previous) pageLength) by lia.
        reflexivity.
      * unfold allItems.
        rewrite map_cons, concat_cons, length_app, Nat2Z.inj_add, Ni.
        cbn [List.map concat length]. lia.
Qed.

(** The whole stream, run with just enough fuel. *)
Lemma pages_from_start :
  exists pages,
    Stream_generate (Z.to_nat (Z.max 1 (ceilDiv total pageLength)))
                    (mkPage [] pageLength 0 0) nextPage morePages
      = Some pages /\
    (exists first, pages !! 0%nat = Some first /\
                   pg_from first = 0 /\ pg_to first = pageLength) /\
    Z.of_nat (length pages) = Z.max 1 (ceilDiv total pageLength) /\
    Z.of_nat (length (allItems pages)) = total.
Proof.
  set (initial := mkPage [] pageLength 0 0).
  destruct (nextPage_served initial) as (Nt & Nf & Nto & Ni);
    [cbn; lia|].
  cbn [pg_to pg_totalCount initial] in Nf, Nto, Ni.
  rewrite Z.add_0_l, Z.min_id in Nto.
  rewrite Nto in Ni.
  replace (Z.min 0 total) with 0 in Ni by lia.
  destruct (Z.max 1 (ceilDiv total pageLength)) as [|n|n] eqn:En; [lia| |lia].
  destruct (Z.to_nat (Z.pos n)) as [|fuel] eqn:Ef; [lia|].
  cbn [Stream_generate]. unfold morePages at 1.
  destruct (Z.ltb_spec (pg_to (nextPage initial))
                       (pg_totalCount (nextPage initial))) as [Hlt|Hge].
  - rewrite Nt, Nto in Hlt.
    pose proof (ceilDiv_step total pageLength pageLength_pos) as Hstep.
    pose proof (ceilDiv_pos (total - pageLength) pageLength) as Hpos.
    destruct (pages_after fuel (nextPage initial)) as (rest & Hg & Hn & Hi).
    + exact Nt.
    + lia.
    + rewrite Nto. lia.
    + exists (nextPage initial :: rest). rewrite Hg.
      split; [reflexivity|]. split; [by exists (nextPage initial)|].
      rewrite Nto in Hn, Hi. split.
      * rewrite length_cons, Nat2Z.inj_succ, Hn. lia.
      * unfold allItems in Hi |- *.
        rewrite map_cons, concat_cons, length_app, Nat2Z.inj_add, Hi, Ni.
        lia.
  - rewrite Nt, Nto in Hge.
    exists [nextPage initial]. split; [reflexivity|].
    split; [by exists (nextPage initial)|]. split.
    + destruct (Z.eq_dec total 0) as [H0|H0].
      * rewrite H0, ceilDiv_zero in En by lia. cbn. lia.
      * rewrite (ceilDiv_one total pageLength) in En by lia. cbn. lia.
    + unfold allItems.
      rewrite map_cons, concat_cons, length_app, Nat2Z.inj_add, Ni.
      cbn [List.map concat length]. lia.
Qed.

End PageLength.

(** C3 (amended). Against a backend that constantly reports
    [total >= 0] and serves each window from a history of [total]
    items, and for [pageLength > 0], [lookupAllAddressHistories]
    finishes and emits max(1, ceil(total / pageLength)) pages, that is
    ceil(total / pageLength) pages when [total > 0] and one page when
    [total = 0]; the first page covers [0, pageLength); every page but
    the last has [to < totalCount] and the last has [to >= totalCount]
    for the total reported with that page; and the pages' items
    number [total] together, the same for any other page length. *)
Theorem lookupAllAddressHistories_pages (pageLength : Z) :
  0 < pageLength ->
  exists (pages front : list Page) (first last : Page),
    (forall fuel : nat,
        Z.max 1 (ceilDiv total pageLength) <= Z.of_nat fuel ->
        lookupAllAddressHistories send fuel addresses start end_ pageLength
          = Some pages) /\
    Z.of_nat (length pages) = Z.max 1 (ceilDiv total pageLength) /\
    (0 < total -> Z.of_nat (length pages) = ceilDiv total pageLength) /\
    (total = 0 -> length pages = 1%nat) /\
    pages !! 0%nat = Some first /\
    pg_from first = 0 /\ pg_to first = pageLength /\
    pages = front ++ [last] /\
    Forall (fun p => pg_to p < pg_totalCount p) front /\
    pg_totalCount last <= pg_to last /\
    Z.of_nat (length (allItems pages)) = total /\
    (forall (pageLength' : Z) (fuel' : nat) (pages' : list Page),
        0 < pageLength' ->
        lookupAllAddressHistories send fuel' addresses start end_ pageLength'
          = Some pages' ->
        length (allItems pages') = length (allItems pages)).
Proof.
  intros Hp.
  destruct (pages_from_start pageLength Hp)
    as (pages & Hg & (first & Hfirst & Hfrom & Hto) & Hn & Hi).
  destruct (Stream_generate_stops _ _ _ _ _ Hg)
    as (front & last & Hsplit & Hfront & Hlast).
  exists pages, front, first, last.
  split.
  { intros fuel Hfuel. unfold lookupAllAddressHistories.
    apply (Stream_generate_more _ _ _ _ _ _ Hg). lia. }
  split; [exact Hn|]. split.
  { intros Hpos. rewrite Hn.
    pose proof (ceilDiv_pos total pageLength Hp Hpos). lia. }
  split.
  { intros H0. rewrite H0, ceilDiv_zero in Hn by lia. lia. }
  split; [exact Hfirst|]. split; [exact Hfrom|]. split; [exact Hto|].
  split; [exact Hsplit|]. split.
  { eapply Forall_impl; [exact Hfront|].
    intros p Hlt. unfold morePages in Hlt. by apply Z.ltb_lt. }
  split; [unfold morePages in Hlast; by apply Z.ltb_ge|].
  split; [exact Hi|].
  intros pageLength' fuel' pages' Hp' Hg'.
  destruct (pages_from_start pageLength' Hp') as (pages2 & Hg2 & _ & _ & Hi2).
  unfold lookupAllAddressHistories in Hg'.
  rewrite (Stream_generate_fuel _ _ _ _ _ _ _ Hg' Hg2).
  apply Nat2Z.inj. by rewrite Hi, Hi2.
Qed.

End Pagination.

Section PaginationExamples.

Import Bitcore ClientSpec.

(** A backend with an empty history. *)
Example lookup_empty_history :
  lookupAllAddressHistories emptyBackend 1 [] None None 100 =
    Some [mkPage [] 0 0 100] /\
  ceilDiv 0 100 = 0.
Proof. split; reflexivity. Qed.

Lemma historyBackend_serves (history : list BcHistory) :
  serves (historyBackend history) (Z.of_nat (length history)).
Proof.
  intros rq. split; [reflexivity|]. intros H.
  unfold historyBackend, window. cbn [items].
  rewrite length_take, length_drop. lia.
Qed.

(** C3 as stated fails: against a backend with an empty history, which
    constantly reports a total of 0, the stream emits one page, not
    ceil(0 / pageLength) = 0 pages. *)
Lemma pages_count_not_ceiling :
  ~ (forall (send : HistoryRequest -> BcHistories) (total pageLength : Z)
            (fuel : nat) (pages : list Page),
        0 <= total ->
        0 < pageLength ->
        serves send total ->
        lookupAllAddressHistories send fuel [] None None pageLength
          = Some pages ->
        Z.of_nat (length pages) = ceilDiv total pageLength).
Proof.
  intros H.
  specialize (H emptyBackend 0 100 1%nat [mkPage [] 0 0 100]).
  discriminate H;
    [lia|lia|exact (historyBackend_serves [])|reflexivity].
Qed.

Lemma sampleBackend_serves : serves sampleBackend 5.
Proof. exact (historyBackend_serves sampleHistory). Qed.

Lemma lookupAllAddressHistories_pages_witness :
  exists (pages front : list Page) (first last : Page),
    (forall fuel : nat,
        Z.max 1 (ceilDiv 5 2) <= Z.of_nat fuel ->
        lookupAllAddressHistories sampleBackend fuel [] None None 2
          = Some pages) /\
    Z.of_nat (length pages) = Z.max 1 (ceilDiv 5 2) /\
    (0 < 5 -> Z.of_nat (length pages) = ceilDiv 5 2) /\
    (5 = 0 -> length pages = 1%nat) /\
    pages !! 0%nat = Some first /\
    pg_from first = 0 /\ pg_to first = 2 /\
    pages = front ++ [last] /\
    Forall (fun p => pg_to p < pg_totalCount p) front /\
    pg_totalCount last <= pg_to last /\
    Z.of_nat (length (allItems pages)) = 5 /\
    (forall (pageLength' : Z) (fuel' : nat) (pages' : list Page),
        0 < pageLength' ->
        lookupAllAddressHistories sampleBackend fuel' [] None None pageLength'
          = Some pages' ->
        length (allItems pages') = length (allItems pages)).
Proof.
  apply (lookupAllAddressHistories_pages sampleBackend 5 [] None None).
  - lia.
  - exact sampleBackend_serves.
  - lia.
Defined.

Example lookup_sample_history :
  option_map (List.map (fun p => (pg_from p, pg_to p, length (pg_items p))))
             (lookupAllAddressHistories sampleBackend 3 [] None None 2) =
  Some [(0, 2, 2%nat); (2, 4, 2%nat); (4, 5, 1%nat)].
Proof. reflexivity. Qed.

End PaginationExamples.

Section ClientExamples.

Import Bitcore ClientSpec.

Example observe_sample :
  List.map (fun ti => (ti_id ti, ti_height ti, ti_timestamp ti))
           (observeAll sampleSatoshis sampleObservations
                       new_BitcoreBlockchain).1 =
    [("aa"%string, None, None);
     ("aa"%string, Some 120, Some 1600);
     ("aa"%string, Some 120, Some 1600)] /\
  effects (observeAll sampleSatoshis sampleObservations
                      new_BitcoreBlockchain).2 = [Converted "aa"].
Proof. split; reflexivity. Qed.

Example notification_sample :
  exists m,
    (notificationToMatch sampleNotification new_BitcoreBlockchain).1
      = Return m /\
    addresses m = ["1111111111111111111114oLvT2"%string] /\
    rejected m = false /\
    ti_height (info m) = None /\ ti_timestamp (info m) = None.
Proof. eexists. split; [vm_compute; reflexivity|]. by repeat split. Qed.

Example subscribe_twice_in_one_call :
  effects (subscribe ["a"; "b"; "a"]%string
                     (addresses_add "b" new_BitcoreBlockchain)) =
  [Emit "subscribe" "address/transaction" ["a"; "a"]%string].
Proof. reflexivity. Qed.

Lemma interning_exactly_once_witness :
  exists ti tj,
    (observeAll sampleSatoshis sampleObservations
                new_BitcoreBlockchain).1 !! 0%nat = Some ti /\
    (observeAll sampleSatoshis sampleObservations
                new_BitcoreBlockchain).1 !! 2%nat = Some tj /\
    ti_tx ti = ti_tx tj.
Proof.
  eexists. eexists. split; [reflexivity|]. split; [reflexivity|].
  apply (proj1 (interning_exactly_once sampleSatoshis sampleObservations)
               0%nat 2%nat (Live sampleNotification) (Insight sampleInsight));
    reflexivity.
Defined.

Lemma subscribe_idempotent_witness :
  exists forwarded : list string,
    effects (subscribe ["a"; "b"]%string
                       (addresses_add "b" new_BitcoreBlockchain)) =
      effects (addresses_add "b" new_BitcoreBlockchain) ++
      [Emit "subscribe" "address/transaction" forwarded] /\
    (forall a, a ∈ forwarded <->
               a ∈ ["a"; "b"]%string /\
               a ∉ watched (addresses_add "b" new_BitcoreBlockchain)) /\
    (forall a, a ∈ watched (subscribe ["a"; "b"]%string
                              (addresses_add "b" new_BitcoreBlockchain)) <->
               a ∈ watched (addresses_add "b" new_BitcoreBlockchain) \/
               a ∈ forwarded) /\
    ((forall a, a ∈ ["a"; "b"]%string ->
                a ∈ watched (addresses_add "b" new_BitcoreBlockchain)) ->
     forwarded = [] /\
     watched (subscribe ["a"; "b"]%string
                (addresses_add "b" new_BitcoreBlockchain)) =
       watched (addresses_add "b" new_BitcoreBlockchain)) /\
    effects (subscribe ["a"; "b"]%string
               (subscribe ["a"; "b"]%string
                  (addresses_add "b" new_BitcoreBlockchain))) =
      effects (subscribe ["a"; "b"]%string
                 (addresses_add "b" new_BitcoreBlockchain)) ++
      [Emit "subscribe" "address/transaction" []] /\
    watched (subscribe ["a"; "b"]%string
               (subscribe ["a"; "b"]%string
                  (addresses_add "b" new_BitcoreBlockchain))) =
      watched (subscribe ["a"; "b"]%string
                 (addresses_add "b" new_BitcoreBlockchain)).
Proof.
  exact (subscribe_idempotent ["a"; "b"]%string
           (addresses_add "b" new_BitcoreBlockchain)).
Defined.

Lemma produced_info_exposed_witness :
  bci_height (notificationInfo sampleNotification) <= 0 /\
  ti_height (toInfo (notificationInfo sampleNotification)
                    new_BitcoreBlockchain).1 = None /\
  ti_timestamp (toInfo (notificationInfo sampleNotification)
                       new_BitcoreBlockchain).1 = None.
Proof.
  assert (H : bci_height (notificationInfo sampleNotification) <= 0)
    by (cbn; lia).
  split; [exact H|].
  exact (proj2 (proj1 (produced_info_exposed sampleSatoshis
                                             new_BitcoreBlockchain)
                      (notificationInfo sampleNotification)) H).
Defined.

Lemma bitcoreToAddress_strict_witness :
  versionByte "testnet" "scripthash" = Some 196 /\
  length (Codec.Buffer_from_hex
            "0000000000000000000000000000000000000000") = 20%nat /\
  bitcoreToAddress
    (mkBcParsedAddress "0000000000000000000000000000000000000000"
                       "testnet" "scripthash") =
    Return (Codec.base58check
              (196 :: Codec.Buffer_from_hex
                        "0000000000000000000000000000000000000000")).
Proof.
  split; [reflexivity|]. split; [reflexivity|].
  exact (proj1 (proj2 (bitcoreToAddress_strict
                         (mkBcParsedAddress
                            "0000000000000000000000000000000000000000"
                            "testnet" "scripthash")))
               196 eq_refl eq_refl).
Defined.

Example bitcoreToAddress_foreign_network :
  bitcoreToAddress foreignAddress =
  Throw (TypeError "Unknown bitcore network 'regtest'").
Proof. reflexivity. Qed.

End ClientExamples.

(* ===================================================================== *)
(** ** Further properties of the transaction history engine *)
(* ===================================================================== *)

Section Comparator.

Import History Spec HistoryFacts.

Lemma rank_injective (s t : TransactionImpactType) :
  rank s = rank t -> s = t.
Proof. by destruct s, t. Qed.

(** X1. [compareByOldestAndType] never returns NaN, is antisymmetric in
    sign, and returns 0 exactly for two impacts of the same height
    (or both without height) and the same type. *)
Theorem compareByOldestAndType_consistent (a b : TransactionImpact) :
  compareByOldestAndType a b <> JS.NaN /\
  JS.negative (compareByOldestAndType a b) =
    positive (compareByOldestAndType b a) /\
  (compareByOldestAndType a b = JS.Fin 0 <->
   height a = height b /\ type a = type b).
Proof.
  unfold compareByOldestAndType. rewrite !indexOf_rank.
  pose proof (rank_injective (type a) (type b)) as Hinj.
  destruct (height a) as [h1|], (height b) as [h2|]; cbn.
  - destruct (Z.eq_dec h1 h2) as [->|Hne].
    + rewrite Z.sub_diag. cbn.
      split; [discriminate|]. split.
      * destruct (Z.ltb_spec (rank (type a) - rank (type b)) 0),
                 (Z.ltb_spec 0 (rank (type b) - rank (type a))); lia.
      * split.
        -- intros H. inversion H. split; [done|]. apply Hinj. lia.
        -- intros [_ ->]. by rewrite Z.sub_diag.
    + destruct (h1 - h2) as [|p|p] eqn:E1; [lia| |];
        destruct (h2 - h1) as [|q|q] eqn:E2; try lia; cbn;
        (split; [discriminate|]); (split; [reflexivity|]);
        (split; [intros H; inversion H|intros [H _]; congruence]).
  - split; [discriminate|]. split; [reflexivity|].
    split; [discriminate|]. by intros [? _].
  - split; [discriminate|]. split; [reflexivity|].
    split; [discriminate|]. by intros [? _].
  - split; [discriminate|]. split.
    + destruct (Z.ltb_spec (rank (type a) - rank (type b)) 0),
               (Z.ltb_spec 0 (rank (type b) - rank (type a))); lia.
    + split.
      * intros H. inversion H. split; [done|]. apply Hinj. lia.
      * intros [_ ->]. by rewrite Z.sub_diag.
Qed.

End Comparator.

Section Ledger.

Import History Spec HistoryFacts.

Variables (transactions : TransactionMap) (external internal_ : Chain).

Lemma rev_lookup_Some {X} (l : list X) (i : nat) (x : X) :
  rev l !! i = Some x <-> l !! (length l - S i)%nat = Some x /\ (i < length l)%nat.
Proof. rewrite rev_alt. apply reverse_lookup_Some. Qed.

Lemma analyzeTransaction_balance (info : TransactionInfo) :
  withoutBalance (analyzeTransaction transactions external internal_ info) =
  analyzeTransaction transactions external internal_ info.
Proof.
  unfold analyzeTransaction, withoutBalance, set_balance.
  repeat match goal with |- context [if ?b then _ else _] => destruct b end;
    reflexivity.
Qed.

Lemma reduceBalance_withoutBalance (l : list TransactionImpact) :
  forall prev,
    List.map withoutBalance (reduceBalance prev l) =
    List.map withoutBalance l.
Proof.
  induction l as [|x l IH]; intros prev; [done|].
  cbn. rewrite IH. by destruct prev.
Qed.

Lemma sumValues_perm (l l' : list TransactionImpact) :
  l ≡ₚ l' -> sumValues l = sumValues l'.
Proof.
  induction 1 as [|x l l' _ IH|x y l|l l' l'' _ IH1 _ IH2]; cbn.
  - reflexivity.
  - unfold sumValues in IH. cbn. lia.
  - lia.
  - congruence.
Qed.

Lemma precedes_set_balance (a b : TransactionImpact) (x y : Z) :
  precedes (set_balance a x) (set_balance b y) <-> precedes a b.
Proof.
  split.
  - intros [h1 h2 Ha Hb Hlt|h Ha Hb|Heq Hr]; cbn in *.
    + by apply (precedes_older a b h1 h2).
    + by apply (precedes_confirmed a b h).
    + by apply precedes_type.
  - intros [h1 h2 Ha Hb Hlt|h Ha Hb|Heq Hr].
    + by apply (precedes_older _ _ h1 h2).
    + by apply (precedes_confirmed _ _ h).
    + by apply precedes_type.
Qed.

Lemma deriveImpacts_unfold :
  deriveImpacts transactions external internal_ =
  rev (reduceBalance None
         (JS.sort compareByOldestAndType
                  (analyzed transactions external internal_))).
Proof. reflexivity. Qed.

(** C1. The ledger returned by [deriveImpacts] is the reverse of a
    chronological ledger.  That ledger holds the analysed
    transactions, each once and with only its balance changed; it is
    oldest first, no impact standing after one it has to precede in
    the order by height and type; and the balance of its i-th impact
    is the sum of the values of the impacts up to and including it,
    so the first balance is the first value. *)
Theorem deriveImpacts_running_balance :
  exists ledger : list TransactionImpact,
    deriveImpacts transactions external internal_ = rev ledger /\
    List.map withoutBalance ledger ≡ₚ
      analyzed transactions external internal_ /\
    (forall (i j : nat) (a b : TransactionImpact),
        ledger !! i = Some a -> ledger !! j = Some b ->
        (i < j)%nat -> ~ precedes b a) /\
    (forall (i : nat) (imp : TransactionImpact),
        ledger !! i = Some imp ->
        balance imp = sumValues (take (S i) ledger)) /\
    (forall imp, ledger !! 0%nat = Some imp -> balance imp = value imp).
Proof.
  set (sorted := JS.sort compareByOldestAndType
                         (analyzed transactions external internal_)).
  exists (reduceBalance None sorted).
  split; [apply deriveImpacts_unfold|]. split; [|split; [|split]].
  - rewrite reduceBalance_withoutBalance.
    unfold sorted.
    rewrite (Permutation_map withoutBalance
               (sort_perm compareByOldestAndType _)).
    unfold analyzed. rewrite List.map_map.
    erewrite List.map_ext; [reflexivity|].
    intros info. apply analyzeTransaction_balance.
  - intros i j a b Ha Hb Hlt Hp.
    assert (Hi : (i < length sorted)%nat).
    { apply lookup_lt_Some in Ha. by rewrite reduceBalance_length in Ha. }
    assert (Hj : (j < length sorted)%nat).
    { apply lookup_lt_Some in Hb. by rewrite reduceBalance_length in Hb. }
    destruct (lookup_lt_is_Some_2 sorted i Hi) as [sa Hsa].
    destruct (lookup_lt_is_Some_2 sorted j Hj) as [sb Hsb].
    rewrite (reduceBalance_lookup sorted None i sa Hsa) in Ha.
    rewrite (reduceBalance_lookup sorted None j sb Hsb) in Hb.
    inversion Ha; inversion Hb; subst a b.
    apply precedes_set_balance, compare_negative in Hp.
    exact (sorted_lookup_notAfter compareByOldestAndType sorted i j sa sb
             (sort_impacts_sorted _) Hsa Hsb Hlt Hp).
  - intros i imp Himp.
    assert (Hi : (i < length sorted)%nat).
    { apply lookup_lt_Some in Himp.
      by rewrite reduceBalance_length in Himp. }
    destruct (lookup_lt_is_Some_2 sorted i Hi) as [s Hs].
    rewrite (reduceBalance_lookup sorted None i s Hs) in Himp.
    inversion Himp; subst imp.
    rewrite reduceBalance_values. cbn. lia.
  - intros imp H0. destruct sorted as [|s l]; [discriminate|].
    cbn in H0. inversion H0. reflexivity.
Qed.

(** X2. [deriveImpacts] returns exactly one impact per transaction of
    the set: apart from the balances, the returned ledger is a
    permutation of the analysed transactions. *)
Theorem deriveImpacts_permutation :
  List.map withoutBalance (deriveImpacts transactions external internal_)
    ≡ₚ analyzed transactions external internal_ /\
  length (deriveImpacts transactions external internal_) =
    length transactions.
Proof.
  rewrite deriveImpacts_unfold. split.
  - rewrite map_rev, <- Permutation_rev, reduceBalance_withoutBalance.
    rewrite (Permutation_map withoutBalance
               (sort_perm compareByOldestAndType _)).
    unfold analyzed. rewrite List.map_map.
    erewrite List.map_ext; [reflexivity|].
    intros info. apply analyzeTransaction_balance.
  - rewrite length_rev, reduceBalance_length.
    rewrite (Permutation_length (sort_perm compareByOldestAndType _)).
    apply length_map.
Qed.

(** X3. The balance of the newest impact, the head of the returned
    ledger, is the sum of the values of all analysed transactions. *)
Theorem deriveImpacts_final_balance (imp : TransactionImpact)
        (older : list TransactionImpact) :
  deriveImpacts transactions external internal_ = imp :: older ->
  balance imp = sumValues (analyzed transactions external internal_).
Proof.
  rewrite !deriveImpacts_unfold.
  set (sorted := JS.sort compareByOldestAndType
                         (analyzed transactions external internal_)).
  intros H.
  assert (H0 : rev (reduceBalance None sorted) !! 0%nat = Some imp)
    by (by rewrite H).
  apply rev_lookup_Some in H0 as [H0 Hlen].
  rewrite reduceBalance_length in H0, Hlen.
  destruct (lookup_lt_is_Some_2 sorted (length sorted - 1)%nat) as [s Hs];
    [lia|].
  rewrite (reduceBalance_lookup sorted None _ s Hs) in H0.
  inversion H0; subst imp. cbn.
  rewrite take_ge by lia.
  apply sumValues_perm, sort_perm.
Qed.

(** X4. The returned ledger is newest first: an impact never stands
    before one that has to come after it chronologically.  So once an
    impact without height appears no impact before it has a height,
    and heights never increase down the ledger. *)
Theorem deriveImpacts_newest_first (k j : nat) (a b : TransactionImpact) :
  deriveImpacts transactions external internal_ !! k = Some a ->
  deriveImpacts transactions external internal_ !! j = Some b ->
  (k < j)%nat ->
  ~ precedes a b /\
  (height b = None -> height a = None) /\
  (forall ha hb, height a = Some ha -> height b = Some hb -> hb <= ha).
Proof.
  rewrite !deriveImpacts_unfold.
  set (sorted := JS.sort compareByOldestAndType
                         (analyzed transactions external internal_)).
  intros Ha Hb Hlt.
  apply rev_lookup_Some in Ha as [Ha Hka], Hb as [Hb Hjb].
  rewrite reduceBalance_length in Ha, Hb, Hka, Hjb.
  destruct (lookup_lt_is_Some_2 sorted (length sorted - S k)%nat)
    as [sa Hsa]; [lia|].
  destruct (lookup_lt_is_Some_2 sorted (length sorted - S j)%nat)
    as [sb Hsb]; [lia|].
  rewrite (reduceBalance_lookup sorted None _ sa Hsa) in Ha.
  rewrite (reduceBalance_lookup sorted None _ sb Hsb) in Hb.
  inversion Ha; inversion Hb; subst a b.
  assert (Hn : ~ precedes sa sb).
  { intros Hp. apply compare_negative in Hp.
    apply (sorted_lookup_notAfter compareByOldestAndType sorted
             (length sorted - S j) (length sorted - S k) sb sa
             (sort_impacts_sorted _) Hsb Hsa); [lia|exact Hp]. }
  split; [by rewrite precedes_set_balance|]. cbn. split.
  - intros Hnone. destruct (height sa) as [ha|] eqn:E; [|done].
    destruct Hn. by apply (precedes_confirmed sa sb ha).
  - intros ha hb Hha Hhb.
    destruct (Z.le_gt_cases hb ha) as [|Hgt]; [done|].
    destruct Hn. by apply (precedes_older sa sb ha hb).
Qed.

End Ledger.

Section Branches.

Import History Spec HistoryFacts.

Variables (transactions : TransactionMap) (external internal_ : Chain).

Local Abbreviation analyze :=
  (analyzeTransaction transactions external internal_).

Lemma isExternal_onChain (o : Output) :
  isExternal external o = true -> onChain external o.
Proof.
  unfold isExternal, onChain, chainContainsAddress.
  destruct (out_address o) as [a|]; [|by rewrite andb_false_r].
  intros [_ H]%andb_true_iff. apply bool_decide_eq_true in H. by exists a.
Qed.

Lemma isInternal_onChain (o : Output) :
  isInternal internal_ o = true -> onChain internal_ o.
Proof.
  unfold isInternal, onChain, chainContainsAddress.
  destruct (out_address o) as [a|]; [|by rewrite andb_false_r].
  intros [_ H]%andb_true_iff. apply bool_decide_eq_true in H. by exists a.
Qed.

Lemma isCredit_then_owned (o : Output) :
  isCredit external internal_ o = true -> owned external internal_ o.
Proof.
  unfold isCredit. intros [H|H]%orb_true_iff.
  - destruct (isExternal_onChain o H) as (a & Ha & Hin). exists a. auto.
  - destruct (isInternal_onChain o H) as (a & Ha & Hin). exists a. auto.
Qed.

Lemma filter_length_le {X} (f : X -> bool) (l : list X) :
  (length (List.filter f l) <= length l)%nat.
Proof.
  induction l as [|x l IH]; cbn; [lia|]. destruct (f x); cbn; lia.
Qed.

Lemma filter_length_all {X} (f : X -> bool) (l : list X) :
  length (List.filter f l) = length l -> forall x, x ∈ l -> f x = true.
Proof.
  induction l as [|y l IH]; cbn; intros H x Hx.
  - by apply elem_of_nil in Hx.
  - pose proof (filter_length_le f l).
    destruct (f y) eqn:Ey; cbn in H; [|lia].
    apply elem_of_cons in Hx as [->|Hx]; [exact Ey|].
    apply IH; [lia|exact Hx].
Qed.

Lemma omap_filter_length_le {X Y} (f : X -> option Y) (g : Y -> bool)
      (l : list X) :
  (length (List.filter g (omap f l)) <= length l)%nat.
Proof.
  induction l as [|x l IH]; cbn; [lia|].
  destruct (f x) as [y|]; cbn; [|lia]. destruct (g y); cbn; lia.
Qed.

Lemma omap_filter_length_all {X Y} (f : X -> option Y) (g : Y -> bool)
      (l : list X) :
  length (List.filter g (omap f l)) = length l ->
  forall x, x ∈ l -> exists y, f x = Some y /\ g y = true.
Proof.
  induction l as [|x' l IH]; cbn; intros H x Hx.
  - by apply elem_of_nil in Hx.
  - pose proof (omap_filter_length_le f g l).
    destruct (f x') as [y|] eqn:Ef; cbn in H; [|lia].
    destruct (g y) eqn:Eg; cbn in H; [|lia].
    apply elem_of_cons in Hx as [->|Hx]; [by exists y|].
    apply IH; [lia|exact Hx].
Qed.

(** The three branches of [analyzeTransaction]. *)
Lemma analyzeTransaction_branches (info : TransactionInfo) :
  (withinAccount transactions external internal_ info = true /\
   type (analyze info) = internal /\ targets (analyze info) = []) \/
  (withinAccount transactions external internal_ info = false /\
   0 < value (analyze info) /\
   type (analyze info) = incoming /\
   targets (analyze info) =
     if Z.of_nat (length (List.filter (isExternal external)
                                      (tx_outs (ti_tx info)))) =? 0
     then List.filter (isInternal internal_) (tx_outs (ti_tx info))
     else List.filter (isExternal external) (tx_outs (ti_tx info))) \/
  (withinAccount transactions external internal_ info = false /\
   value (analyze info) <= 0 /\
   type (analyze info) = outgoing /\
   targets (analyze info) =
     List.filter (isDebit external internal_) (tx_outs (ti_tx info))).
Proof.
  unfold analyzeTransaction, withinAccount.
  rewrite analyzeTransaction_counters. cbn.
  destruct (_ && _); [left; done|].
  destruct (Z.ltb_spec 0
              (sumOutputs (List.filter (isCredit external internal_)
                                       (tx_outs (ti_tx info))) -
               sumOutputs (List.filter (isCredit external internal_)
                                       (spentOutputs transactions info)))).
  - right; left. done.
  - right; right. done.
Qed.

(** X5. An impact is classified [internal] only if every input
    resolves to a previous output owned by one of the chains and every
    output is owned by one of the chains; it then has no targets. *)
Theorem analyzeTransaction_internal_only_if (info : TransactionInfo) :
  type (analyze info) = internal ->
  (forall (index : nat) (i : Input),
      tx_ins (ti_tx info) !! index = Some i ->
      exists o, spentOutput transactions info index i = Some o /\
                owned external internal_ o) /\
  (forall o, o ∈ tx_outs (ti_tx info) -> owned external internal_ o) /\
  targets (analyze info) = [].
Proof.
  intros Ht.
  destruct (analyzeTransaction_branches info)
    as [(Hw & _ & Htg)|[(_ & _ & Ht' & _)|(_ & _ & Ht' & _)]];
    [|congruence..].
  unfold withinAccount in Hw.
  apply andb_true_iff in Hw as [Hd%Z.eqb_eq%Nat2Z.inj Hc%Z.eqb_eq%Nat2Z.inj].
  split; [|split; [|exact Htg]].
  - intros index i Hi.
    unfold spentOutputs in Hd. rewrite <- (indexed_length (tx_ins _)) in Hd.
    destruct (omap_filter_length_all _ _ _ Hd (index, i)) as (o & Ho & Hown).
    + apply list_elem_of_lookup. exists index. by apply indexed_lookup.
    + exists o. split; [exact Ho|by apply isCredit_then_owned].
  - intros o Ho. apply isCredit_then_owned.
    by apply (filter_length_all _ _ Hc).
Qed.

Lemma sumOutputs_nonneg (l : list Output) :
  (forall o, o ∈ l -> 0 <= out_value o) -> 0 <= sumOutputs l.
Proof.
  induction l as [|o l IH]; intros H; cbn; [lia|].
  assert (0 <= out_value o) by (apply H, elem_of_cons; by left).
  assert (0 <= sumOutputs l).
  { apply IH. intros o' Ho'. apply H, elem_of_cons. by right. }
  unfold sumOutputs in *. lia.
Qed.

Lemma elem_of_List_filter {X} (f : X -> bool) (l : list X) (x : X) :
  x ∈ List.filter f l <-> x ∈ l /\ f x = true.
Proof. by rewrite !list_elem_of_In, filter_In. Qed.

(** X6. An [incoming] impact has a positive value; each of its targets
    is an output of the transaction owned by one of the chains; the
    targets are all on the external chain or all on the internal
    chain; and when no spent output has a negative value there is at
    least one target. *)
Theorem analyzeTransaction_incoming (info : TransactionInfo) :
  type (analyze info) = incoming ->
  0 < value (analyze info) /\
  (forall t, t ∈ targets (analyze info) ->
             t ∈ tx_outs (ti_tx info) /\ owned external internal_ t) /\
  ((forall t, t ∈ targets (analyze info) -> onChain external t) \/
   (forall t, t ∈ targets (analyze info) -> onChain internal_ t)) /\
  ((forall o, o ∈ spentOutputs transactions info -> 0 <= out_value o) ->
   targets (analyze info) <> []).
Proof.
  intros Ht.
  destruct (analyzeTransaction_branches info)
    as [(_ & Ht' & _)|[(_ & Hv & _ & Htg)|(_ & _ & Ht' & _)]];
    [congruence| |congruence].
  split; [exact Hv|].
  set (ext := List.filter (isExternal external) (tx_outs (ti_tx info))) in *.
  set (int := List.filter (isInternal internal_) (tx_outs (ti_tx info))) in *.
  assert (Hext : forall t, t ∈ ext ->
                   t ∈ tx_outs (ti_tx info) /\ isExternal external t = true)
    by (intros t; apply elem_of_List_filter).
  assert (Hint : forall t, t ∈ int ->
                   t ∈ tx_outs (ti_tx info) /\ isInternal internal_ t = true)
    by (intros t; apply elem_of_List_filter).
  destruct (Z.eqb_spec (Z.of_nat (length ext)) 0) as [H0|H0];
    rewrite Htg; clear Htg.
  - split; [|split].
    + intros t [Hin Hi]%Hint. split; [exact Hin|].
      apply isCredit_then_owned. unfold isCredit. by rewrite Hi, orb_true_r.
    + right. intros t [_ Hi]%Hint. by apply isInternal_onChain.
    + intros Hnn Hnil.
      rewrite analyzeTransaction_value in Hv.
      pose proof (sumOutputs_nonneg
                    (List.filter (isCredit external internal_)
                                 (spentOutputs transactions info))) as Hd.
      assert (Hc : sumOutputs (List.filter (isCredit external internal_)
                                           (tx_outs (ti_tx info))) = 0).
      { replace (List.filter (isCredit external internal_)
                             (tx_outs (ti_tx info))) with (@nil Output);
          [reflexivity|].
        symmetry.
        destruct (List.filter (isCredit external internal_)
                              (tx_outs (ti_tx info))) as [|o l] eqn:E;
          [reflexivity|exfalso].
        assert (Ho : o ∈ o :: l) by (apply elem_of_cons; by left).
        rewrite <- E in Ho. apply elem_of_List_filter in Ho as [Hin Hcr].
        unfold isCredit in Hcr. apply orb_true_iff in Hcr as [He|Hi].
        - assert (Hoe : o ∈ ext) by (by apply elem_of_List_filter).
          destruct ext; [by apply elem_of_nil in Hoe|cbn in H0; lia].
        - assert (Hoi : o ∈ int) by (by apply elem_of_List_filter).
          rewrite Hnil in Hoi. by apply elem_of_nil in Hoi. }
      rewrite Hc in Hv.
      assert (0 <= sumOutputs (List.filter (isCredit external internal_)
                                           (spentOutputs transactions info))).
      { apply Hd. intros o [Ho _]%elem_of_List_filter. by apply Hnn. }
      lia.
  - split; [|split].
    + intros t [Hin He]%Hext. split; [exact Hin|].
      apply isCredit_then_owned. unfold isCredit. by rewrite He.
    + left. intros t [_ He]%Hext. by apply isExternal_onChain.
    + intros _ Hnil. rewrite Hnil in H0. cbn in H0. lia.
Qed.

Section WellFormedChains.

Hypothesis external_wf : chain_wf external.
Hypothesis internal_wf : chain_wf internal_.

Lemma isDebit_not_owned (o : Output) :
  isDebit external internal_ o = true <-> ~ owned external internal_ o.
Proof.
  unfold isDebit. rewrite negb_true_iff.
  rewrite <- (isCredit_owned external internal_ external_wf internal_wf o).
  by destruct (isCredit external internal_ o).
Qed.

(** X7. An [outgoing] impact has a value that is zero or negative, and
    its targets are exactly the outputs of the transaction that are
    owned by neither chain. *)
Theorem analyzeTransaction_outgoing (info : TransactionInfo) :
  type (analyze info) = outgoing ->
  value (analyze info) <= 0 /\
  (forall o, o ∈ targets (analyze info) <->
             o ∈ tx_outs (ti_tx info) /\ ~ owned external internal_ o).
Proof.
  intros Ht.
  destruct (analyzeTransaction_branches info)
    as [(_ & Ht' & _)|[(_ & _ & Ht' & _)|(_ & Hv & _ & Htg)]];
    [congruence..|].
  split; [exact Hv|]. intros o.
  by rewrite Htg, elem_of_List_filter, isDebit_not_owned.
Qed.

Lemma filter_none {X} (f : X -> bool) (l : list X) :
  (forall x, x ∈ l -> f x = false) -> List.filter f l = [].
Proof.
  induction l as [|x l IH]; intros H; cbn; [done|].
  rewrite (H x) by (apply elem_of_cons; by left).
  apply IH. intros y Hy. apply H, elem_of_cons. by right.
Qed.

Lemma filter_all {X} (f : X -> bool) (l : list X) :
  (forall x, x ∈ l -> f x = true) -> List.filter f l = l.
Proof.
  induction l as [|x l IH]; intros H; cbn; [done|].
  rewrite (H x) by (apply elem_of_cons; by left).
  f_equal. apply IH. intros y Hy. apply H, elem_of_cons. by right.
Qed.

(** X8. A transaction with at least one input or output, none of
    whose outputs and resolved spent outputs is owned by a chain, is
    classified [outgoing] with value 0 and all its outputs as
    targets. *)
Theorem analyzeTransaction_unrelated (info : TransactionInfo) :
  (forall o, o ∈ tx_outs (ti_tx info) -> ~ owned external internal_ o) ->
  (forall o, o ∈ spentOutputs transactions info ->
             ~ owned external internal_ o) ->
  tx_ins (ti_tx info) <> [] \/ tx_outs (ti_tx info) <> [] ->
  type (analyze info) = outgoing /\
  value (analyze info) = 0 /\
  targets (analyze info) = tx_outs (ti_tx info).
Proof.
  intros Hout Hin Hne.
  assert (Hc : List.filter (isCredit external internal_)
                           (tx_outs (ti_tx info)) = []).
  { apply filter_none. intros o Ho. apply not_true_is_false.
    intros H. apply (Hout o Ho). by apply isCredit_then_owned. }
  assert (Hd : List.filter (isCredit external internal_)
                           (spentOutputs transactions info) = []).
  { apply filter_none. intros o Ho. apply not_true_is_false.
    intros H. apply (Hin o Ho). by apply isCredit_then_owned. }
  assert (Hv : value (analyze info) = 0).
  { rewrite analyzeTransaction_value, Hc, Hd. reflexivity. }
  destruct (analyzeTransaction_branches info)
    as [(Hw & _)|[(_ & Hpos & _)|(_ & _ & Ht & Htg)]].
  - exfalso. unfold withinAccount in Hw. rewrite Hc, Hd in Hw. cbn in Hw.
    apply andb_true_iff in Hw as [H1%Z.eqb_eq H2%Z.eqb_eq].
    destruct Hne as [Hne|Hne].
    + destruct (tx_ins (ti_tx info)); [done|cbn in H1; lia].
    + destruct (tx_outs (ti_tx info)); [done|cbn in H2; lia].
  - lia.
  - split; [exact Ht|]. split; [exact Hv|]. rewrite Htg.
    apply filter_all. intros o Ho. apply isDebit_not_owned. by apply Hout.
Qed.

End WellFormedChains.

End Branches.

Section HistoryWitnesses.

Import History Spec HistoryFacts Sample MoreSamples.

Lemma deriveImpacts_running_balance_witness :
  exists ledger : list TransactionImpact,
    deriveImpacts wallet external internal_ = rev ledger /\
    List.map withoutBalance ledger ≡ₚ analyzed wallet external internal_ /\
    (forall (i j : nat) (a b : TransactionImpact),
        ledger !! i = Some a -> ledger !! j = Some b ->
        (i < j)%nat -> ~ precedes b a) /\
    (forall (i : nat) (imp : TransactionImpact),
        ledger !! i = Some imp ->
        balance imp = sumValues (take (S i) ledger)) /\
    (forall imp, ledger !! 0%nat = Some imp -> balance imp = value imp).
Proof. exact (deriveImpacts_running_balance wallet external internal_). Defined.

Lemma deriveImpacts_final_balance_witness :
  deriveImpacts wallet external internal_ =
    sweepImpact :: [spendingImpact; fundingImpact] /\
  balance sweepImpact = sumValues (analyzed wallet external internal_).
Proof.
  assert (H : deriveImpacts wallet external internal_ =
              sweepImpact :: [spendingImpact; fundingImpact])
    by (vm_compute; reflexivity).
  split; [exact H|].
  exact (deriveImpacts_final_balance wallet external internal_ _ _ H).
Defined.

Lemma deriveImpacts_newest_first_witness :
  ~ precedes sweepImpact fundingImpact /\
  (height fundingImpact = None -> height sweepImpact = None) /\
  (forall ha hb, height sweepImpact = Some ha ->
                 height fundingImpact = Some hb -> hb <= ha).
Proof.
  apply (deriveImpacts_newest_first wallet external internal_ 0 2);
    [reflexivity|reflexivity|lia].
Defined.

Lemma analyzeTransaction_internal_only_if_witness :
  (forall (index : nat) (i : Input),
      tx_ins (ti_tx sweep) !! index = Some i ->
      exists o, spentOutput wallet sweep index i = Some o /\
                owned external internal_ o) /\
  (forall o, o ∈ tx_outs (ti_tx sweep) -> owned external internal_ o) /\
  targets (analyzeTransaction wallet external internal_ sweep) = [].
Proof.
  apply (analyzeTransaction_internal_only_if wallet external internal_ sweep).
  reflexivity.
Defined.

Lemma analyzeTransaction_incoming_witness :
  0 < value (analyzeTransaction wallet external internal_ funding) /\
  (forall t, t ∈ targets (analyzeTransaction wallet external internal_
                                             funding) ->
             t ∈ tx_outs (ti_tx funding) /\ owned external internal_ t) /\
  ((forall t, t ∈ targets (analyzeTransaction wallet external internal_
                                              funding) ->
              onChain external t) \/
   (forall t, t ∈ targets (analyzeTransaction wallet external internal_
                                              funding) ->
              onChain internal_ t)) /\
  ((forall o, o ∈ spentOutputs wallet funding -> 0 <= out_value o) ->
   targets (analyzeTransaction wallet external internal_ funding) <> []).
Proof.
  apply (analyzeTransaction_incoming wallet external internal_ funding).
  reflexivity.
Defined.

Lemma analyzeTransaction_outgoing_witness :
  value (analyzeTransaction wallet external internal_ spending) <= 0 /\
  (forall o, o ∈ targets (analyzeTransaction wallet external internal_
                                             spending) <->
             o ∈ tx_outs (ti_tx spending) /\ ~ owned external internal_ o).
Proof.
  apply (analyzeTransaction_outgoing wallet external internal_
           sample_external_wf sample_internal_wf spending).
  reflexivity.
Defined.

Lemma sample_elsewhere_not_owned : ~ owned external internal_ elsewhere.
Proof. exact sample_paid_not_owned. Qed.

Lemma analyzeTransaction_unrelated_witness :
  type (analyzeTransaction wallet external internal_ stranger) = outgoing /\
  value (analyzeTransaction wallet external internal_ stranger) = 0 /\
  targets (analyzeTransaction wallet external internal_ stranger) =
    [elsewhere].
Proof.
  apply (analyzeTransaction_unrelated wallet external internal_
           sample_external_wf sample_internal_wf stranger).
  - intros o Ho. apply list_elem_of_singleton in Ho as ->.
    exact sample_elsewhere_not_owned.
  - intros o Ho. by apply elem_of_nil in Ho.
  - left. discriminate.
Defined.

End HistoryWitnesses.

(* ===================================================================== *)
(** ** Further properties of the bitcore client *)
(* ===================================================================== *)

Section Adapters.

Import Bitcore ClientSpec ClientFacts.

Lemma hexDigit_lower (c : ascii) :
  lowerHexDigit c = true ->
  exists d, Codec.hexDigit c = Some d /\ 0 <= d < 16 /\ Codec.hexChar d = c.
Proof.
  destruct c as [[] [] [] [] [] [] [] []]; intros H;
    try discriminate H; clear H; vm_compute; eexists;
    (split; [reflexivity|]); (split; [split|reflexivity]);
    (discriminate || reflexivity).
Qed.

Lemma hex_decode_encode :
  forall s, lowerHex s = true ->
            Codec.Buffer_to_hex (Codec.Buffer_from_hex s) = s.
Proof.
  fix IH 1. intros [|c1 [|c2 rest]] H; [reflexivity|discriminate|].
  cbn [lowerHex] in H.
  apply andb_true_iff in H as [[H1 H2]%andb_true_iff Hr].
  destruct (hexDigit_lower c1 H1) as (h & Eh & Hh & Ch).
  destruct (hexDigit_lower c2 H2) as (l & El & Hl & Cl).
  cbn [Codec.Buffer_from_hex]. rewrite Eh, El.
  cbn [Codec.Buffer_to_hex]. rewrite (IH rest Hr).
  replace ((16 * h + l) / 16) with h by (apply Z.div_unique with l; lia).
  replace ((16 * h + l) mod 16) with l by (apply Z.mod_unique with h; lia).
  by rewrite Ch, Cl.
Qed.

Lemma to_uint32_range (z : Z) : 0 <= JS.to_uint32 z < 2 ^ 32.
Proof. unfold JS.to_uint32. apply Z.mod_pos_bound. lia. Qed.

Lemma to_uint32_small (z : Z) : 0 <= z < 2 ^ 32 -> JS.to_uint32 z = z.
Proof. unfold JS.to_uint32. apply Z.mod_small. Qed.

(** X9. [bitcoreToTransaction] keeps the number and order of inputs
    and outputs and the output values; every input index and sequence
    number of the result is an unsigned 32-bit integer, unchanged when
    it already was one; and a neutered conversion leaves every input
    script empty. *)
Theorem bitcoreToTransaction_shape (r : BcTransaction) (neutered : bool) :
  length (tx_ins (bitcoreToTransaction r neutered)) = length (bc_inputs r) /\
  List.map out_value (tx_outs (bitcoreToTransaction r neutered)) =
    List.map bo_satoshis (bc_outputs r) /\
  (forall (k : nat) (i : Input),
      tx_ins (bitcoreToTransaction r neutered) !! k = Some i ->
      exists ir,
        bc_inputs r !! k = Some ir /\
        0 <= in_index i < 2 ^ 32 /\
        0 <= in_sequence i < 2 ^ 32 /\
        (0 <= bi_outputIndex ir < 2 ^ 32 -> in_index i = bi_outputIndex ir) /\
        (0 <= bi_sequenceNumber ir < 2 ^ 32 ->
         in_sequence i = bi_sequenceNumber ir) /\
        (neutered = true -> in_script i = [])).
Proof.
  unfold bitcoreToTransaction. cbn. split; [apply length_map|].
  split; [by rewrite List.map_map|].
  intros k i Hi.
  change (List.map ?f ?l) with (f <$> l) in Hi.
  apply list_lookup_fmap_Some in Hi as (ir & -> & Hir).
  exists ir. cbn. split; [exact Hir|].
  split; [apply to_uint32_range|]. split; [apply to_uint32_range|].
  split; [apply to_uint32_small|]. split; [apply to_uint32_small|].
  by intros ->.
Qed.

(** X10. Both wire adapters store the hash of a spent transaction
    byte-reversed: reversing it back and printing it in hexadecimal
    gives the id the backend sent, for every id made of an even
    number of lower-case hexadecimal digits. *)
Theorem adapters_spent_ids (roundedSatoshis : string -> Z) :
  (forall (r : BcTransaction) (neutered : bool),
      Forall (fun ir => lowerHex (bi_prevTxId ir) = true) (bc_inputs r) ->
      List.map spentId (tx_ins (bitcoreToTransaction r neutered)) =
        List.map bi_prevTxId (bc_inputs r)) /\
  (forall r : InsightTransactionInfo,
      Forall (fun ir => lowerHex (ii_txid ir) = true) (it_vin r) ->
      List.map spentId (tx_ins (insightToTransaction roundedSatoshis r)) =
        List.map ii_txid (it_vin r)).
Proof.
  split.
  - intros r neutered H. unfold bitcoreToTransaction. cbn.
    rewrite List.map_map. unfold spentId. cbn.
    induction H as [|ir l Hir _ IH]; cbn; [reflexivity|].
    by rewrite rev_involutive, (hex_decode_encode _ Hir), IH.
  - intros r H. unfold insightToTransaction. cbn.
    rewrite List.map_map. unfold spentId. cbn.
    induction H as [|ir l Hir _ IH]; cbn; [reflexivity|].
    by rewrite rev_involutive, (hex_decode_encode _ Hir), IH.
Qed.

End Adapters.

Section CacheBehaviour.

Import Bitcore ClientSpec ClientFacts.

Variable roundedSatoshis : string -> Z.

(** X11. The cache keeps the conversion of whichever adapter saw an id
    first.  After [toInfo] has interned a transaction, an insight
    lookup of the same id returns that neutered transaction, with
    empty input scripts, and runs no adapter; after [insightToInfo]
    has interned it, [toInfo] returns the insight conversion. *)
Theorem first_adapter_wins (r : BcTransactionInfo)
        (ri : InsightTransactionInfo) (s : BitcoreBlockchain) :
  it_txid ri = bc_hash (bci_tx r) ->
  transactions s !! it_txid ri = None ->
  (ti_tx (insightToInfo roundedSatoshis ri (toInfo r s).2).1 =
     bitcoreToTransaction (bci_tx r) true /\
   Forall (fun i => in_script i = [])
          (tx_ins (ti_tx (insightToInfo roundedSatoshis ri
                                        (toInfo r s).2).1)) /\
   effects (insightToInfo roundedSatoshis ri (toInfo r s).2).2 =
     effects s ++ [Converted (it_txid ri)]) /\
  (ti_tx (toInfo r (insightToInfo roundedSatoshis ri s).2).1 =
     insightToTransaction roundedSatoshis ri /\
   effects (toInfo r (insightToInfo roundedSatoshis ri s).2).2 =
     effects s ++ [Converted (it_txid ri)]).
Proof.
  intros Hid Hmiss. split.
  - unfold toInfo. rewrite <- Hid, Hmiss. cbn.
    unfold insightToInfo. cbn. rewrite lookup_insert_eq. cbn.
    split; [reflexivity|]. split; [|reflexivity].
    apply Forall_forall. intros i Hi. apply list_elem_of_In in Hi.
    apply in_map_iff in Hi as (ir & <- & _). reflexivity.
  - unfold insightToInfo. rewrite Hmiss. cbn.
    unfold toInfo. cbn. rewrite <- Hid, lookup_insert_eq. cbn.
    by split.
Qed.

Lemma toInfo_keeps_watched (r : BcTransactionInfo) (s : BitcoreBlockchain) :
  watched (toInfo r s).2 = watched s /\
  transactions (toInfo r s).2 !! bc_hash (bci_tx r) =
    Some (ti_tx (toInfo r s).1).
Proof.
  unfold toInfo.
  destruct (transactions s !! bc_hash (bci_tx r)) as [tx|] eqn:E; cbn.
  - by rewrite E.
  - by rewrite lookup_insert_eq.
Qed.

(** X12. [toInfo] changes nothing but the cache entry of the record's
    id: the watched set and all other entries stay, an entry that
    exists is kept, and calling it again with the same record returns
    the same info and leaves the client as it is. *)
Theorem toInfo_footprint (r : BcTransactionInfo) (s : BitcoreBlockchain) :
  watched (toInfo r s).2 = watched s /\
  (forall id, id <> bc_hash (bci_tx r) ->
              transactions (toInfo r s).2 !! id = transactions s !! id) /\
  (forall tx, transactions s !! bc_hash (bci_tx r) = Some tx ->
              (toInfo r s).2 = s) /\
  transactions (toInfo r s).2 !! bc_hash (bci_tx r) =
    Some (ti_tx (toInfo r s).1) /\
  toInfo r (toInfo r s).2 = toInfo r s.
Proof.
  unfold toInfo.
  destruct (transactions s !! bc_hash (bci_tx r)) as [tx|] eqn:E; cbn.
  - rewrite E. cbn. repeat split; try done.
  - rewrite lookup_insert_eq. cbn.
    repeat split; try done.
    intros id Hne. by rewrite lookup_insert_ne.
Qed.

(** X13. [notificationToMatch] interns the transaction before it
    converts the address: when the address conversion throws, the
    notification fails with that error and the transaction is in the
    cache all the same; when it succeeds, the match carries the one
    converted address, the notification's [rejected] flag unchanged,
    and the info of the notification's transaction. *)
Theorem notificationToMatch_outcome (r : BcNotification)
        (s : BitcoreBlockchain) :
  (notificationToMatch r s).2 = (toInfo (notificationInfo r) s).2 /\
  is_Some (transactions (notificationToMatch r s).2 !! bc_hash (bn_tx r)) /\
  (forall e, (notificationToMatch r s).1 = Throw e <->
             bitcoreToAddress (bn_address r) = Throw e) /\
  (forall m, (notificationToMatch r s).1 = Return m ->
             (exists a, bitcoreToAddress (bn_address r) = Return a /\
                        addresses m = [a]) /\
             rejected m = bn_rejected r /\
             info m = (toInfo (notificationInfo r) s).1).
Proof.
  unfold notificationToMatch.
  pose proof (toInfo_keeps_watched (notificationInfo r) s) as (_ & Hc).
  destruct (toInfo (notificationInfo r) s) as [i s'] eqn:E. cbn in Hc.
  destruct (bitcoreToAddress (bn_address r)) as [a|e']; cbn.
  - split; [reflexivity|]. split; [by eexists|]. split.
    + intros e. split; discriminate.
    + intros m Hm. inversion Hm; subst m. cbn.
      split; [by exists a|done].
  - split; [reflexivity|]. split; [by eexists|]. split.
    + intros e. split; intros H; inversion H; reflexivity.
    + intros m Hm. discriminate.
Qed.

End CacheBehaviour.

Section AddressErrors.

Import Bitcore ClientSpec.

(** X14. [bitcoreToAddress] checks the network, then the type, then
    the hash: an unknown network fails with
    [Unknown bitcore network '...'] naming it, whatever the type; a
    known network with an unknown type fails with
    [Unknown bitcore address version '...'] naming the type; a known
    network and type with a hash that does not decode to 20 bytes
    fails with the encoder's argument error; and it throws nothing
    else. *)
Theorem bitcoreToAddress_errors (r : BcParsedAddress) :
  (pa_network r <> "livenet"%string -> pa_network r <> "testnet"%string ->
   bitcoreToAddress r =
     Throw (TypeError ("Unknown bitcore network '" +:+ pa_network r +:+ "'"))) /\
  (pa_network r = "livenet"%string \/ pa_network r = "testnet"%string ->
   pa_type r <> "pubkeyhash"%string -> pa_type r <> "scripthash"%string ->
   bitcoreToAddress r =
     Throw (TypeError ("Unknown bitcore address version '" +:+ pa_type r
                       +:+ "'"))) /\
  (forall v, versionByte (pa_network r) (pa_type r) = Some v ->
             length (Codec.Buffer_from_hex (pa_hash r)) <> 20%nat ->
             bitcoreToAddress r =
               Throw (ArgumentError (Codec.Buffer_from_hex (pa_hash r)) v)) /\
  (forall e, bitcoreToAddress r = Throw e ->
             e = TypeError ("Unknown bitcore network '" +:+ pa_network r
                            +:+ "'") \/
             e = TypeError ("Unknown bitcore address version '" +:+ pa_type r
                            +:+ "'") \/
             (exists v,
                 versionByte (pa_network r) (pa_type r) = Some v /\
                 length (Codec.Buffer_from_hex (pa_hash r)) <> 20%nat /\
                 e = ArgumentError (Codec.Buffer_from_hex (pa_hash r)) v)).
Proof.
  split; [|split; [|split]].
  - unfold bitcoreToAddress, bitcoreToNetwork. intros H1 H2.
    by repeat case_decide.
  - unfold bitcoreToAddress, bitcoreToNetwork, bitcoreToAddressVersion.
    intros [Hn|Hn] H1 H2; rewrite Hn; cbn; by repeat case_decide.
  - intros v Hv Hlen.
    rewrite (bitcoreToAddress_recognized r v Hv).
    rewrite (toBase58Check_checked _ v (versionByte_byte _ _ v Hv)).
    by case_decide.
  - intros e He.
    destruct (versionByte (pa_network r) (pa_type r)) as [v|] eqn:Hv.
    + right; right. exists v. split; [reflexivity|].
      rewrite (bitcoreToAddress_recognized r v Hv) in He.
      rewrite (toBase58Check_checked _ v (versionByte_byte _ _ v Hv)) in He.
      case_decide as Hlen; [discriminate|].
      split; [exact Hlen|]. by inversion He.
    + revert He Hv.
      unfold bitcoreToAddress, bitcoreToNetwork, bitcoreToAddressVersion,
        versionByte.
      repeat case_decide; intros He Hv; try discriminate Hv;
        inversion He; auto.
Qed.

End AddressErrors.

Section Subscriptions.

Import Bitcore ClientSpec ClientFacts.

Lemma subscribe_watched (addresses : list string) (s : BitcoreBlockchain) :
  watched (subscribe addresses s) = list_to_set addresses ∪ watched s.
Proof.
  destruct (subscribe_forwarded addresses s) as (_ & -> & _).
  apply set_eq. intros a.
  rewrite !elem_of_union, !elem_of_list_to_set, elem_of_unwatched.
  destruct (decide (a ∈ watched s)); tauto.
Qed.

(** X15. [subscribe] extends the watched set by the given addresses
    and leaves the transaction cache alone; for the watched set, two
    calls in a row amount to one call with both lists, in either
    order. *)
Theorem subscribe_composes (l1 l2 : list string) (s : BitcoreBlockchain) :
  watched (subscribe l1 s) = list_to_set l1 ∪ watched s /\
  transactions (subscribe l1 s) = transactions s /\
  watched (subscribe l2 (subscribe l1 s)) = watched (subscribe (l1 ++ l2) s) /\
  watched (subscribe l2 (subscribe l1 s)) =
    watched (subscribe l1 (subscribe l2 s)).
Proof.
  split; [apply subscribe_watched|].
  split; [by destruct (subscribe_forwarded l1 s) as (-> & _)|].
  rewrite !subscribe_watched, list_to_set_app_L.
  split; apply set_eq; intros a; rewrite !elem_of_union; tauto.
Qed.

Lemma NoDup_unwatched (addresses : list string) (w : gset string) :
  NoDup addresses ->
  NoDup (List.filter (fun a => negb (bool_decide (a ∈ w))) addresses).
Proof. rewrite !NoDup_ListNoDup. apply List.NoDup_filter. Qed.

Lemma subscribeAll_forwarded (calls : list (list string)) :
  forall s,
    (forall l, l ∈ calls -> NoDup l) ->
    exists forwarded : list (list string),
      effects (subscribeAll calls s) =
        effects s ++ List.map subscription forwarded /\
      length forwarded = length calls /\
      NoDup (concat forwarded) /\
      (forall a, a ∈ concat forwarded -> a ∉ watched s) /\
      watched (subscribeAll calls s) =
        list_to_set (concat forwarded) ∪ watched s.
Proof.
  induction calls as [|l calls IH]; intros s Hnd.
  - exists []. cbn. rewrite app_nil_r. split; [done|]. split; [done|].
    split; [constructor|]. split; [intros a Ha; by apply elem_of_nil in Ha|].
    by rewrite (left_id_L ∅ (∪)).
  - destruct (subscribe_forwarded l s) as (_ & Hw & He).
    set (f := List.filter (fun a => negb (bool_decide (a ∈ watched s))) l)
      in *.
    destruct (IH (subscribe l s)) as (fs & Hes & Hlen & Hnd' & Hfresh & Hws).
    { intros l' Hl'. apply Hnd, elem_of_cons. by right. }
    exists (f :: fs). cbn [subscribeAll fold_left].
    fold (subscribeAll calls (subscribe l s)).
    split; [|split; [|split; [|split]]].
    + rewrite Hes, He. cbn. by rewrite <- app_assoc.
    + cbn. by rewrite Hlen.
    + cbn. apply NoDup_app. split; [|split; [|exact Hnd']].
      * apply NoDup_unwatched, Hnd, elem_of_cons. by left.
      * intros a Ha Ha'. apply (Hfresh a Ha').
        rewrite Hw, elem_of_union, elem_of_list_to_set. by left.
    + intros a Ha. cbn in Ha. apply elem_of_app in Ha as [Ha|Ha].
      * by apply elem_of_unwatched in Ha as [_ Ha].
      * intros Hin. apply (Hfresh a Ha).
        rewrite Hw, elem_of_union. by right.
    + rewrite Hws, Hw. cbn. rewrite list_to_set_app_L.
      apply set_eq. intros a. rewrite !elem_of_union. tauto.
Qed.

(** X16. Over any sequence of [subscribe] calls whose lists have no
    repeated address, each call emits one subscription message, no
    address is forwarded twice in the whole sequence, and no address
    watched at the start is forwarded at all. *)
Theorem subscribeAll_no_duplicate (calls : list (list string))
        (s : BitcoreBlockchain) :
  (forall l, l ∈ calls -> NoDup l) ->
  exists forwarded : list (list string),
    effects (subscribeAll calls s) =
      effects s ++ List.map subscription forwarded /\
    length forwarded = length calls /\
    NoDup (concat forwarded) /\
    (forall a, a ∈ concat forwarded -> a ∉ watched s).
Proof.
  intros Hnd.
  destruct (subscribeAll_forwarded calls s Hnd)
    as (fs & He & Hlen & Hn & Hfresh & _).
  exists fs. by repeat split.
Qed.

End Subscriptions.

Section PageWindows.

Import Bitcore ClientSpec ClientFacts.

(** The states a stream emits are the iterates of its generator, and
    the predicate holds of every state that has a successor. *)
Lemma Stream_generate_iterates {T} (generate : T -> T)
      (condition : T -> bool) :
  forall (fuel : nat) (initial : T) (l : list T),
    Stream_generate fuel initial generate condition = Some l ->
    l !! 0%nat = Some (generate initial) /\
    (forall (k : nat) (x y : T),
        l !! k = Some x -> l !! S k = Some y ->
        y = generate x /\ condition x = true).
Proof.
  induction fuel as [|fuel IH]; intros initial l H; [discriminate|].
  cbn in H. destruct (condition (generate initial)) eqn:Ec.
  - destruct (Stream_generate fuel (generate initial) generate condition)
      as [l'|] eqn:E; [|discriminate].
    inversion H; subst l. destruct (IH _ _ E) as [H0 Hs].
    split; [reflexivity|]. intros [|k] x y Hx Hy.
    + change (l' !! 0%nat = Some y) in Hy.
      inversion Hx; subst x. rewrite H0 in Hy. inversion Hy. by split.
    + by apply (Hs k).
  - inversion H; subst l. split; [reflexivity|].
    intros [|k] x y Hx Hy; cbn in Hx, Hy; discriminate.
Qed.

Variable send : HistoryRequest -> BcHistories.
Variables (addresses : list string) (start end_ : option Z).
Variable pageLength : Z.

(** X17. Whatever the backend answers, the page windows of
    [lookupAllAddressHistories] with [pageLength > 0] start at 0, each
    begins where the one before ended, none is empty or wider than
    [pageLength], none reaches beyond the total reported with the page
    before, and every page holds the backend's answer to the request
    for its own window with [queryMempool] set. *)
Theorem lookupAllAddressHistories_windows (fuel : nat) (pages : list Page) :
  0 < pageLength ->
  lookupAllAddressHistories send fuel addresses start end_ pageLength
    = Some pages ->
  (exists first, pages !! 0%nat = Some first /\
                 pg_from first = 0 /\ pg_to first = pageLength) /\
  (forall (k : nat) (p q : Page),
      pages !! k = Some p -> pages !! S k = Some q ->
      pg_from q = pg_to p /\ pg_to q <= pg_totalCount p) /\
  (forall (k : nat) (p : Page),
      pages !! k = Some p ->
      pg_from p < pg_to p <= pg_from p + pageLength /\
      pg_items p =
        items (send (mkHistoryRequest addresses (pg_from p) (pg_to p)
                                      start end_ true)) /\
      pg_totalCount p =
        totalCount (send (mkHistoryRequest addresses (pg_from p) (pg_to p)
                                           start end_ true))).
Proof.
  intros Hp H. unfold lookupAllAddressHistories in H.
  destruct (Stream_generate_iterates _ _ _ _ _ H) as [H0 Hs].
  split; [|split].
  - eexists. split; [exact H0|]. cbn. split; [reflexivity|lia].
  - intros k p q Hk Hq. destruct (Hs k p q Hk Hq) as [-> Hc].
    unfold morePages in Hc. apply Z.ltb_lt in Hc. cbn. split; lia.
  - intros [|k] p Hk.
    + rewrite H0 in Hk. inversion Hk; subst p. cbn.
      unfold lookupAddressHistories. cbn. repeat split; lia.
    + destruct (lookup_lt_is_Some_2 pages k) as [x Hx].
      { apply lookup_lt_Some in Hk. lia. }
      destruct (Hs k x p Hx Hk) as [-> Hc].
      unfold morePages in Hc. apply Z.ltb_lt in Hc. cbn.
      unfold lookupAddressHistories. repeat split; lia.
Qed.

(** The stream never finishes when nothing can make [to] reach the
    total. *)
Lemma Stream_generate_stuck (fuel : nat) :
  forall previous : Page,
    pageLength <= 0 ->
    (forall rq, 0 < totalCount (send rq)) ->
    pg_to previous <= 0 ->
    Stream_generate fuel previous
      (nextPage send addresses start end_ pageLength) morePages = None.
Proof.
  induction fuel as [|fuel IH]; intros previous Hp Ht Hto; [reflexivity|].
  cbn [Stream_generate].
  assert (Hn : pg_to (nextPage send addresses start end_ pageLength previous)
               <= 0) by (cbn; lia).
  unfold morePages at 1.
  destruct (Z.ltb_spec
              (pg_to (nextPage send addresses start end_ pageLength previous))
              (pg_totalCount
                 (nextPage send addresses start end_ pageLength previous)))
    as [_|Hge].
  - by rewrite (IH _ Hp Ht Hn).
  - exfalso. cbn in Hge, Hn. unfold lookupAddressHistories in Hge.
    specialize (Ht (mkHistoryRequest addresses (pg_to previous)
                      (Z.min (pg_to previous + pageLength)
                             (pg_totalCount previous)) start end_ true)).
    lia.
Qed.

(** X18. With a page length of zero or less and a backend that always
    reports a positive total, [lookupAllAddressHistories] never
    finishes: the stream has not ended after any number of requests. *)
Theorem lookupAllAddressHistories_needs_positive_pageLength (fuel : nat) :
  pageLength <= 0 ->
  (forall rq, 0 < totalCount (send rq)) ->
  lookupAllAddressHistories send fuel addresses start end_ pageLength = None.
Proof.
  intros Hp Ht. unfold lookupAllAddressHistories.
  apply Stream_generate_stuck; [exact Hp|exact Ht|cbn; lia].
Qed.

End PageWindows.

Section Reassembly.

Import Bitcore ClientSpec ClientFacts.

Variable history : list BcHistory.
Variables (addresses : list string) (start end_ : option Z).
Variable pageLength : Z.
Hypothesis pageLength_pos : 0 < pageLength.

Local Abbreviation total := (Z.of_nat (length history)).
Local Abbreviation next :=
  (nextPage (historyBackend history) addresses start end_ pageLength).

Lemma window_rest (from to : Z) :
  0 <= from <= to -> total <= to ->
  window history from to = drop (Z.to_nat from) history.
Proof.
  intros Hf Ht. unfold window. apply take_ge. rewrite length_drop. lia.
Qed.

Lemma window_then_rest (from to : Z) :
  0 <= from <= to ->
  window history from to ++ drop (Z.to_nat to) history =
  drop (Z.to_nat from) history.
Proof.
  intros Hf. unfold window.
  rewrite <- (take_drop (Z.to_nat (to - from))
                        (drop (Z.to_nat from) history)) at 2.
  rewrite drop_drop. do 2 f_equal. lia.
Qed.

Lemma items_after (fuel : nat) :
  forall (previous : Page) (pages : list Page),
    pg_totalCount previous = total ->
    0 <= pg_to previous < total ->
    Stream_generate fuel previous next morePages = Some pages ->
    allItems pages = drop (Z.to_nat (pg_to previous)) history.
Proof.
  induction fuel as [|fuel IH]; intros previous pages Htc Hto H;
    [discriminate|].
  cbn [Stream_generate] in H.
  assert (Nt : pg_totalCount (next previous) = total) by reflexivity.
  assert (Nto : pg_to (next previous) =
                Z.min (pg_to previous + pageLength) total)
    by (cbn; by rewrite Htc).
  assert (Ni : pg_items (next previous) =
               window history (pg_to previous) (pg_to (next previous)))
    by reflexivity.
  unfold morePages at 1 in H.
  destruct (Z.ltb_spec (pg_to (next previous))
                       (pg_totalCount (next previous))) as [Hlt|Hge].
  - destruct (Stream_generate fuel (next previous) next morePages)
      as [rest|] eqn:E; [|discriminate].
    inversion H; subst pages.
    unfold allItems. rewrite map_cons, concat_cons.
    fold (allItems rest).
    rewrite (IH (next previous) rest Nt) by (try lia; exact E).
    rewrite Ni. apply window_then_rest. lia.
  - inversion H; subst pages.
    unfold allItems. cbn [List.map concat]. rewrite app_nil_r, Ni.
    apply window_rest; lia.
Qed.

(** X19. Against a backend that answers each window with the items of
    a fixed history that fall in it, the stream of pages finishes and
    its items, page after page, are exactly the history: nothing is
    lost, repeated or reordered, whatever the page length. *)
Theorem lookupAllAddressHistories_reassembles :
  exists pages : list Page,
    (forall fuel : nat,
        Z.max 1 (ceilDiv total pageLength) <= Z.of_nat fuel ->
        lookupAllAddressHistories (historyBackend history) fuel addresses
                                  start end_ pageLength = Some pages) /\
    allItems pages = history.
Proof.
  destruct (pages_from_start (historyBackend history) total addresses
              start end_ (Nat2Z.is_nonneg _) (historyBackend_serves history)
              pageLength pageLength_pos) as (pages & Hg & _).
  exists pages. split.
  { intros fuel Hfuel. unfold lookupAllAddressHistories.
    apply (Stream_generate_more _ _ _ _ _ _ Hg). lia. }
  destruct (Z.to_nat (Z.max 1 (ceilDiv total pageLength))) as [|fuel];
    [discriminate|].
  cbn [Stream_generate] in Hg.
  set (initial := mkPage [] pageLength 0 0) in *.
  assert (Ni : pg_items (next initial) = window history 0 pageLength).
  { cbn. by rewrite Z.min_id. }
  assert (Nto : pg_to (next initial) = pageLength) by (cbn; lia).
  unfold morePages at 1 in Hg.
  destruct (Z.ltb_spec (pg_to (next initial))
                       (pg_totalCount (next initial))) as [Hlt|Hge].
  - destruct (Stream_generate fuel (next initial) next morePages)
      as [rest|] eqn:E; [|discriminate].
    inversion Hg; subst pages.
    unfold allItems. rewrite map_cons, concat_cons. fold (allItems rest).
    rewrite (items_after fuel (next initial) rest eq_refl) by
      (try exact E; rewrite Nto; cbn in Hlt; lia).
    rewrite Ni, Nto. apply (window_then_rest 0 pageLength). lia.
  - inversion Hg; subst pages.
    unfold allItems. cbn [List.map concat]. rewrite app_nil_r, Ni.
    apply (window_rest 0 pageLength); [lia|].
    rewrite Nto in Hge. exact Hge.
Qed.

End Reassembly.

Section HistoryLookup.

Import Bitcore ClientSpec ClientFacts.

Lemma mapWith_app {X Y}
      (f : X -> BitcoreBlockchain -> Y * BitcoreBlockchain)
      (l1 l2 : list X) :
  forall s,
    mapWith f (l1 ++ l2) s =
    ((mapWith f l1 s).1 ++ (mapWith f l2 (mapWith f l1 s).2).1,
     (mapWith f l2 (mapWith f l1 s).2).2).
Proof.
  induction l1 as [|x l1 IH]; intros s; cbn.
  - by destruct (mapWith f l2 s).
  - destruct (f x s) as [y s1]. rewrite IH.
    destruct (mapWith f l1 s1) as [ys s2]. cbn.
    by destruct (mapWith f l2 s2).
Qed.

Lemma mapWith_concat {X Y}
      (f : X -> BitcoreBlockchain -> Y * BitcoreBlockchain)
      (ls : list (list X)) :
  forall s,
    mapWith f (concat ls) s =
    (concat (mapWith (fun l => mapWith f l) ls s).1,
     (mapWith (fun l => mapWith f l) ls s).2).
Proof.
  induction ls as [|l ls IH]; intros s; cbn; [reflexivity|].
  rewrite mapWith_app, IH.
  destruct (mapWith f l s) as [ys s1]. cbn.
  by destruct (mapWith (fun l => mapWith f l) ls s1).
Qed.

Lemma fold_left_concat {X} (ls : list (list X)) :
  forall acc : list X,
    fold_left (fun previous current => previous ++ current) ls acc =
    acc ++ concat ls.
Proof.
  induction ls as [|l ls IH]; intros acc; cbn.
  - by rewrite app_nil_r.
  - by rewrite IH, app_assoc.
Qed.

Lemma historyToMatch_all (page : list BcHistory) :
  forall (s : BitcoreBlockchain),
    watched (mapWith historyToMatch page s).2 = watched s /\
    length (mapWith historyToMatch page s).1 = length page /\
    (forall (k : nat) (item : BcHistory),
        page !! k = Some item ->
        exists m,
          (mapWith historyToMatch page s).1 !! k = Some m /\
          ti_id (info m) = bc_hash (bci_tx (bh_info item)) /\
          addresses m = bh_addresses item /\
          rejected m = false).
Proof.
  induction page as [|r page IH]; intros s.
  - cbn. split; [done|]. split; [done|]. intros k item Hk. by destruct k.
  - cbn. unfold historyToMatch at 1 3 5.
    pose proof (toInfo_keeps_watched (bh_info r) s) as (Hw & _).
    assert (Hid : ti_id (toInfo (bh_info r) s).1 =
                  bc_hash (bci_tx (bh_info r))).
    { unfold toInfo.
      by destruct (transactions s !! bc_hash (bci_tx (bh_info r))). }
    destruct (toInfo (bh_info r) s) as [i s1]. cbn in Hw, Hid.
    destruct (IH s1) as (IHw & IHl & IHk).
    destruct (mapWith historyToMatch page s1) as [ms s2]. cbn in *.
    split; [congruence|]. split; [by rewrite IHl|].
    intros [|k] item Hk; cbn in Hk.
    + inversion Hk; subst item. eexists. split; [reflexivity|]. done.
    + by apply IHk.
Qed.

(** What [lookupTransactions] returns once the page stream has
    finished. *)
Lemma lookupTransactions_of_pages
        (send : HistoryRequest -> BcHistories) (fuel : nat)
        (addresses_ : list string) (start end_ : option Z)
        (s s' : BitcoreBlockchain) (ms : list TransactionMatch) :
  lookupTransactions send fuel addresses_ start end_ s = Some (ms, s') ->
  exists pages : list Page,
    lookupAllAddressHistories send fuel addresses_ start end_ 100
      = Some pages /\
    length ms = length (allItems pages) /\
    watched s' = watched s /\
    (forall (k : nat) (item : BcHistory),
        allItems pages !! k = Some item ->
        exists m,
          ms !! k = Some m /\
          ti_id (info m) = bc_hash (bci_tx (bh_info item)) /\
          addresses m = bh_addresses item /\
          rejected m = false /\
          transactions s' !! bc_hash (bci_tx (bh_info item)) =
            Some (ti_tx (info m))).
Proof.
  unfold lookupTransactions, lookupTransactionsStream.
  destruct (lookupAllAddressHistories send fuel addresses_ start end_ 100)
    as [pages|]; [|discriminate].
  intros H. exists pages. split; [reflexivity|].
  pose proof (mapWith_concat historyToMatch (List.map pg_items pages) s)
    as Hc.
  assert (Hm : mapWith (fun l => mapWith historyToMatch l)
                       (List.map pg_items pages) s =
               mapWith (fun r => mapWith historyToMatch (pg_items r))
                       pages s).
  { clear. revert s. induction pages as [|p pages IH]; intros s; cbn;
      [reflexivity|].
    destruct (mapWith historyToMatch (pg_items p) s) as [ys s1].
    by rewrite IH. }
  rewrite Hm in Hc. clear Hm.
  destruct (mapWith (fun r => mapWith historyToMatch (pg_items r)) pages s)
    as [pms s1].
  inversion H; subst ms s'. clear H.
  rewrite fold_left_concat. cbn [app]. fold (allItems pages) in Hc.
  cbn in Hc.
  destruct (historyToMatch_all (allItems pages) s) as (Hw & Hl & Hk).
  destruct (historyPage_observed (fun _ => 0) (allItems pages) s)
    as [Hs Hi].
  rewrite Hc in Hw, Hl, Hk, Hs, Hi. cbn in Hw, Hl, Hk, Hs, Hi.
  split; [exact Hl|]. split; [exact Hw|].
  intros k item Hitem.
  destruct (Hk k item Hitem) as (m & Hm & Hid & Ha & Hr).
  exists m. split; [exact Hm|]. split; [exact Hid|].
  split; [exact Ha|]. split; [exact Hr|].
  destruct (observeAll_cached (fun _ => 0)
              (List.map Historical (allItems pages)) s k (Historical item))
    as (ti & Hti & Hcache).
  { change (List.map ?f ?l) with (f <$> l). by rewrite list_lookup_fmap, Hitem. }
  rewrite <- Hi in Hti. rewrite <- Hs in Hcache.
  change (List.map ?f ?l) with (f <$> l) in Hti.
  rewrite list_lookup_fmap, Hm in Hti. inversion Hti; subst ti.
  exact Hcache.
Qed.

Lemma lookupTransactions_returns
      (send : HistoryRequest -> BcHistories) (fuel : nat)
      (addresses_ : list string) (start end_ : option Z)
      (s : BitcoreBlockchain) (pages : list Page) :
  lookupAllAddressHistories send fuel addresses_ start end_ 100
    = Some pages ->
  exists ms s',
    lookupTransactions send fuel addresses_ start end_ s = Some (ms, s').
Proof.
  intros H. unfold lookupTransactions, lookupTransactionsStream.
  rewrite H.
  destruct (mapWith (fun r => mapWith historyToMatch (pg_items r)) pages s)
    as [pms s1].
  by eexists _, _.
Qed.

(** X20. Against a backend that constantly reports [total >= 0] and
    serves each window from a history of [total] items,
    [lookupTransactions] returns: it resolves to [total] matches, one
    per item of the pages of the stream and in page order; each match
    has the id and the addresses of its item and is never marked
    rejected; afterwards every returned transaction is in the cache,
    and the watched set is as before. *)
Theorem lookupTransactions_matches
        (send : HistoryRequest -> BcHistories) (total : Z)
        (addresses_ : list string) (start end_ : option Z)
        (s : BitcoreBlockchain) :
  0 <= total ->
  serves send total ->
  exists (pages : list Page) (ms : list TransactionMatch)
         (s' : BitcoreBlockchain),
    (forall fuel : nat,
        Z.max 1 (ceilDiv total 100) <= Z.of_nat fuel ->
        lookupAllAddressHistories send fuel addresses_ start end_ 100
          = Some pages /\
        lookupTransactions send fuel addresses_ start end_ s
          = Some (ms, s')) /\
    Z.of_nat (length ms) = total /\
    length ms = length (allItems pages) /\
    watched s' = watched s /\
    (forall (k : nat) (item : BcHistory),
        allItems pages !! k = Some item ->
        exists m,
          ms !! k = Some m /\
          ti_id (info m) = bc_hash (bci_tx (bh_info item)) /\
          addresses m = bh_addresses item /\
          rejected m = false /\
          transactions s' !! bc_hash (bci_tx (bh_info item)) =
            Some (ti_tx (info m))).
Proof.
  intros Htotal Hserves.
  destruct (pages_from_start send total addresses_ start end_ Htotal
              Hserves 100 ltac:(lia)) as (pages & Hg & _ & _ & Hitems).
  set (bound := Z.to_nat (Z.max 1 (ceilDiv total 100))) in *.
  assert (Hpages : lookupAllAddressHistories send bound addresses_ start
                                             end_ 100 = Some pages)
    by exact Hg.
  destruct (lookupTransactions_returns send bound addresses_ start end_ s
              pages Hpages) as (ms & s' & Hres).
  destruct (lookupTransactions_of_pages send bound addresses_ start end_
              s s' ms Hres) as (pages' & Hpages' & Hlen & Hw & Hk).
  rewrite Hpages in Hpages'. inversion Hpages'; subst pages'.
  exists pages, ms, s'. split; [|split; [|split; [|split]]].
  - intros fuel Hfuel.
    assert (Hp : lookupAllAddressHistories send fuel addresses_ start end_
                                           100 = Some pages).
    { unfold lookupAllAddressHistories.
      apply (Stream_generate_more _ _ _ _ _ _ Hg). lia. }
    split; [exact Hp|].
    revert Hres. unfold lookupTransactions, lookupTransactionsStream.
    by rewrite Hp, Hpages.
  - by rewrite Hlen.
  - exact Hlen.
  - exact Hw.
  - exact Hk.
Qed.

End HistoryLookup.

Section InsightLookup.

Import Bitcore ClientSpec Transport.

Example decimal_examples :
  List.map decimal [0; 7; 200; 404; 1000; -15] =
  ["0"; "7"; "200"; "404"; "1000"; "-15"]%string.
Proof. reflexivity. Qed.

Variable roundedSatoshis : string -> Z.
Variable fetch : string -> Promise (Response InsightTransactionInfo).
Variable socket : Socket.

(** X21. [lookupTransaction] requests the transaction resource of the
    insight API.  Any response whose status is not 200 is rejected
    with [Request failed with status N] without its body being read;
    a lookup that is rejected leaves the client untouched; and a
    lookup that resolves has interned the response body through
    [insightToInfo], under the id the body carries. *)
Theorem lookupTransaction_outcome (hash : string) (s : BitcoreBlockchain) :
  (forall resp,
      fetch (transactionUrl socket hash) = Resolved resp ->
      status resp <> 200 ->
      lookupTransaction roundedSatoshis fetch socket hash s =
        (Rejected ("Request failed with status " +:+ decimal (status resp)),
         s)) /\
  (forall m,
      (lookupTransaction roundedSatoshis fetch socket hash s).1 = Rejected m ->
      (lookupTransaction roundedSatoshis fetch socket hash s).2 = s) /\
  (forall i,
      (lookupTransaction roundedSatoshis fetch socket hash s).1 = Resolved i ->
      exists resp r,
        fetch (transactionUrl socket hash) = Resolved resp /\
        status resp = 200 /\
        json resp = Resolved r /\
        lookupTransaction roundedSatoshis fetch socket hash s =
          (Resolved (insightToInfo roundedSatoshis r s).1,
           (insightToInfo roundedSatoshis r s).2) /\
        ti_id i = it_txid r /\
        transactions (lookupTransaction roundedSatoshis fetch socket hash s).2
          !! it_txid r = Some (ti_tx i)).
Proof.
  unfold lookupTransaction, lookupInsightTransaction, sendToInsight,
    fetchResponse.
  fold (transactionUrl socket hash).
  destruct (fetch (transactionUrl socket hash)) as [resp|m0]; cbn.
  - unfold assertStatus. case_bool_decide as Hst; cbn.
    + split; [|split].
      * intros resp' H _. by inversion H; subst resp'.
      * done.
      * intros i H. discriminate.
    + try apply dec_stable in Hst.
      destruct (json resp) as [r|m1] eqn:Ej; cbn.
      * pose proof (intern_cached roundedSatoshis (Insight r) s) as Hc.
        pose proof (intern_id roundedSatoshis (Insight r) s) as Hid.
        cbn in Hc, Hid.
        destruct (insightToInfo roundedSatoshis r s) as [i0 s0] eqn:E.
        cbn in *.
        split; [|split].
        -- intros resp' H Hne. inversion H; subst resp'. done.
        -- intros m H. discriminate.
        -- intros i H. inversion H; subst i. exists resp, r.
           rewrite E. done.
      * split; [|split].
        -- intros resp' H Hne. inversion H; subst resp'. done.
        -- done.
        -- intros i H. discriminate.
  - split; [|split]; try done.
Qed.

End InsightLookup.

Section ClientWitnesses.

Import Bitcore ClientSpec ClientFacts Transport ClientSamples.

Lemma bitcoreToTransaction_shape_witness :
  exists ir,
    bc_inputs sampleTx !! 0%nat = Some ir /\
    in_index (mkInput [] [255; 0] 1 4294967295) = bi_outputIndex ir /\
    in_script (mkInput [] [255; 0] 1 4294967295) = [].
Proof.
  destruct (proj2 (proj2 (bitcoreToTransaction_shape sampleTx true)) 0%nat
                  (mkInput [] [255; 0] 1 4294967295) eq_refl)
    as (ir & Hir & _ & _ & Hi & _ & Hs).
  exists ir. split; [exact Hir|]. split.
  - apply Hi. inversion Hir. cbn. lia.
  - by apply Hs.
Defined.

Lemma adapters_spent_ids_witness :
  List.map spentId (tx_ins (bitcoreToTransaction sampleTx true)) =
  List.map bi_prevTxId (bc_inputs sampleTx).
Proof.
  apply (proj1 (adapters_spent_ids sampleSatoshis) sampleTx true).
  repeat constructor.
Defined.

Lemma first_adapter_wins_witness :
  ti_tx (insightToInfo sampleSatoshis sampleInsight
           (toInfo (bh_info sampleHistoryItem) new_BitcoreBlockchain).2).1 =
    bitcoreToTransaction sampleTx true /\
  ti_tx (toInfo (bh_info sampleHistoryItem)
           (insightToInfo sampleSatoshis sampleInsight
                          new_BitcoreBlockchain).2).1 =
    insightToTransaction sampleSatoshis sampleInsight.
Proof.
  destruct (first_adapter_wins sampleSatoshis (bh_info sampleHistoryItem)
              sampleInsight new_BitcoreBlockchain eq_refl eq_refl)
    as [(H1 & _) (H2 & _)].
  by split.
Defined.

Lemma notificationToMatch_outcome_witness :
  bitcoreToAddress foreignAddress =
    Throw (TypeError "Unknown bitcore network 'regtest'") /\
  is_Some (transactions
             (notificationToMatch
                (mkBcNotification foreignAddress true sampleTx None None)
                new_BitcoreBlockchain).2 !! "aa"%string).
Proof.
  split; [reflexivity|].
  exact (proj1 (proj2 (notificationToMatch_outcome
                         (mkBcNotification foreignAddress true sampleTx
                                           None None)
                         new_BitcoreBlockchain))).
Defined.

Lemma bitcoreToAddress_errors_witness :
  bitcoreToAddress (mkBcParsedAddress "00" "testnet" "witness") =
    Throw (TypeError "Unknown bitcore address version 'witness'").
Proof.
  apply (proj1 (proj2 (bitcoreToAddress_errors
                         (mkBcParsedAddress "00" "testnet" "witness"))));
    [by right|discriminate|discriminate].
Defined.

Lemma sample_calls_NoDup :
  forall l, l ∈ [["a"; "b"]; ["b"; "c"]]%string -> NoDup l.
Proof.
  intros l Hl. apply NoDup_ListNoDup.
  apply elem_of_cons in Hl as [->|Hl];
    [|apply list_elem_of_singleton in Hl as ->];
    repeat constructor; cbn; intuition discriminate.
Qed.

Lemma subscribeAll_no_duplicate_witness :
  exists forwarded : list (list string),
    effects (subscribeAll [["a"; "b"]; ["b"; "c"]]%string
                          new_BitcoreBlockchain) =
      effects new_BitcoreBlockchain ++ List.map subscription forwarded /\
    length forwarded = 2%nat /\
    NoDup (concat forwarded) /\
    (forall a, a ∈ concat forwarded -> a ∉ watched new_BitcoreBlockchain).
Proof.
  exact (subscribeAll_no_duplicate [["a"; "b"]; ["b"; "c"]]%string
           new_BitcoreBlockchain sample_calls_NoDup).
Defined.

Example subscribeAll_sample :
  effects (subscribeAll [["a"; "b"]; ["b"; "c"]]%string
                        new_BitcoreBlockchain) =
  [subscription ["a"; "b"]%string; subscription ["c"]%string].
Proof. reflexivity. Qed.

Lemma samplePages_generated :
  lookupAllAddressHistories sampleBackend 3 [] None None 2 = Some samplePages.
Proof. reflexivity. Qed.

Lemma lookupAllAddressHistories_windows_witness :
  (exists first, samplePages !! 0%nat = Some first /\
                 pg_from first = 0 /\ pg_to first = 2) /\
  (forall (k : nat) (p q : Page),
      samplePages !! k = Some p -> samplePages !! S k = Some q ->
      pg_from q = pg_to p /\ pg_to q <= pg_totalCount p) /\
  (forall (k : nat) (p : Page),
      samplePages !! k = Some p ->
      pg_from p < pg_to p <= pg_from p + 2 /\
      pg_items p =
        items (sampleBackend (mkHistoryRequest [] (pg_from p) (pg_to p)
                                               None None true)) /\
      pg_totalCount p =
        totalCount (sampleBackend (mkHistoryRequest [] (pg_from p) (pg_to p)
                                                    None None true))).
Proof.
  apply (lookupAllAddressHistories_windows sampleBackend [] None None 2 3);
    [lia|exact samplePages_generated].
Defined.

Lemma lookupAllAddressHistories_needs_positive_pageLength_witness :
  lookupAllAddressHistories sampleBackend 1000 [] None None 0 = None.
Proof.
  apply lookupAllAddressHistories_needs_positive_pageLength; [lia|].
  intros rq. cbn. lia.
Defined.

Lemma lookupAllAddressHistories_reassembles_witness :
  exists pages : list Page,
    (forall fuel : nat,
        Z.max 1 (ceilDiv (Z.of_nat (length sampleHistory)) 2)
          <= Z.of_nat fuel ->
        lookupAllAddressHistories sampleBackend fuel [] None None 2
          = Some pages) /\
    allItems pages = sampleHistory.
Proof.
  apply (lookupAllAddressHistories_reassembles sampleHistory [] None None 2).
  lia.
Defined.

Lemma lookupTransactions_matches_witness :
  exists (pages : list Page) (ms : list TransactionMatch)
         (s' : BitcoreBlockchain),
    (forall fuel : nat,
        Z.max 1 (ceilDiv 5 100) <= Z.of_nat fuel ->
        lookupAllAddressHistories sampleBackend fuel [] None None 100
          = Some pages /\
        lookupTransactions sampleBackend fuel [] None None
                           new_BitcoreBlockchain = Some (ms, s')) /\
    Z.of_nat (length ms) = 5 /\
    length ms = length (allItems pages) /\
    watched s' = watched new_BitcoreBlockchain /\
    (forall (k : nat) (item : BcHistory),
        allItems pages !! k = Some item ->
        exists m,
          ms !! k = Some m /\
          ti_id (info m) = bc_hash (bci_tx (bh_info item)) /\
          addresses m = bh_addresses item /\
          rejected m = false /\
          transactions s' !! bc_hash (bci_tx (bh_info item)) =
            Some (ti_tx (info m))).
Proof.
  apply (lookupTransactions_matches sampleBackend 5 [] None None
           new_BitcoreBlockchain); [lia|exact sampleBackend_serves].
Defined.

Example lookupTransactions_sample :
  option_map (fun r => List.map (fun m => ti_id (info m)) r.1)
             (lookupTransactions sampleBackend 1 [] None None
                                 new_BitcoreBlockchain) =
  Some ["01"; "02"; "03"; "04"; "05"]%string.
Proof. vm_compute. reflexivity. Qed.

Lemma lookupTransaction_outcome_witness :
  lookupTransaction sampleSatoshis sampleFetch sampleSocket "bb"
                    new_BitcoreBlockchain =
  (Rejected "Request failed with status 404", new_BitcoreBlockchain).
Proof.
  apply (proj1 (lookupTransaction_outcome sampleSatoshis sampleFetch
                  sampleSocket "bb" new_BitcoreBlockchain)
               (mkResponse 404 (Rejected "Unexpected token")));
    [reflexivity|discriminate].
Defined.

Example lookupTransaction_found :
  (lookupTransaction sampleSatoshis sampleFetch sampleSocket "aa"
                     new_BitcoreBlockchain).1 =
  Resolved (insightToInfo sampleSatoshis sampleInsight
                          new_BitcoreBlockchain).1.
Proof. reflexivity. Qed.

End ClientWitnesses.

Section FootprintWitness.

Import Bitcore ClientSpec.

Lemma toInfo_footprint_witness :
  toInfo (bh_info sampleHistoryItem)
         (toInfo (bh_info sampleHistoryItem) new_BitcoreBlockchain).2 =
  toInfo (bh_info sampleHistoryItem) new_BitcoreBlockchain /\
  transactions (toInfo (bh_info sampleHistoryItem) new_BitcoreBlockchain).2
    !! "bb"%string = None.
Proof.
  destruct (toInfo_footprint (bh_info sampleHistoryItem)
                             new_BitcoreBlockchain)
    as (_ & Hother & _ & _ & Hagain).
  split; [exact Hagain|].
  rewrite (Hother "bb"%string); [reflexivity|discriminate].
Defined.

End FootprintWitness.
